(** * Dolphin: the Zelda DSP-HLE microcode and the PulseAudio backend

    Sources embedded here:
    - [Source/Core/Core/HW/DSPHLE/UCodes/Zelda.h]: the inline members of
      [ZeldaAudioRenderer] ([ApplyVolumeInPlace], [AddBuffersWithVolumeRamp])
      and of [ZeldaUCode] ([Read32], [Write32], [SetMailState],
      [RenderingInProgress]), together with the data members of both classes;
    - [Source/Core/AudioCommon/PulseAudioStream.cpp]: the buffer attributes set
      up by [PulseInit] and the [UnderflowCallback].

    Fixed-width C++ integers are integers of [Z] with the wrap-around written
    out; [std::array] is a list indexed with stdpp's lookup and insert.

    [Zelda.cpp] is not among the sources.  The members that [Zelda.h] only
    declares and that the properties below are about ([HandleMail], the
    [Download...Samples...] members behind [LoadInputSamples], both
    [DoState]) are modelled from the specification; each such definition
    says so. *)

From Stdlib Require Import ZArith Lia Bool.
From stdpp Require Import base tactics option list strings.

Local Open Scope Z_scope.

(** ** Fixed-width integers ([Common/CommonTypes.h]: u16, u32, s16, s32) *)

Module Int.

(** Conversion to an unsigned type: reduction modulo [2^w]. *)
Definition u8 (x : Z) : Z := x mod 2 ^ 8.
Definition u16 (x : Z) : Z := x mod 2 ^ 16.
Definition u32 (x : Z) : Z := x mod 2 ^ 32.

(** Conversion to a signed type: two's complement wrap-around. *)
Definition s16 (x : Z) : Z := (x + 2 ^ 15) mod 2 ^ 16 - 2 ^ 15.
Definition s32 (x : Z) : Z := (x + 2 ^ 31) mod 2 ^ 32 - 2 ^ 31.

(** The values a variable of each type can hold. *)
Definition is_u8 (x : Z) : Prop := 0 <= x < 2 ^ 8.
Definition is_u16 (x : Z) : Prop := 0 <= x < 2 ^ 16.
Definition is_u32 (x : Z) : Prop := 0 <= x < 2 ^ 32.
Definition is_s16 (x : Z) : Prop := - 2 ^ 15 <= x < 2 ^ 15.
Definition is_s32 (x : Z) : Prop := - 2 ^ 31 <= x < 2 ^ 31.

Definition s8 (x : Z) : Z := (x + 2 ^ 7) mod 2 ^ 8 - 2 ^ 7.

End Int.

Import Int.

(** ** Counted loops

    [for (size_t i = first; i < first + count; ++i) body], as a state
    transformer: [body i] is the effect of one iteration on the loop state. *)

Fixpoint for_loop {St : Type} (count : nat) (i : nat)
    (body : nat -> St -> St) (st : St) : St :=
  match count with
  | O => st
  | S count' => for_loop count' (S i) body (body i st)
  end.

(** ** [MathUtil::Clamp] *)

Module MathUtil.

(** Modelled from the spec: [MathUtil::Clamp] of [Common/MathUtil.h], which
    is not among the sources: the value is brought into [[min, max]], those
    below [min] becoming [min] and those above [max] becoming [max]
    ("clamping to [-32768, 32767]"). *)
Definition Clamp (val min max : Z) : Z :=
  if val <? min then min
  else if max <? val then max
  else val.

End MathUtil.

(** ** [class PointerWrap]

    Modelled from the spec: [PointerWrap] of [Common/ChunkFile.h], which is
    not among the sources.  Both [DoState] members take one; the
    specification asks that the state be "serializable and restorable as an
    atomic unit".  A [PointerWrap] is a byte stream with a direction:
    [p.Do(x)] appends the bytes of [x] when writing and replaces [x] by the
    value read off the front of the stream when reading; a restore that runs
    short of bytes or meets an unknown enumerator fails as a whole. *)

Module PointerWrap.

Inductive Mode : Type := MODE_READ | MODE_WRITE.

Record t : Type := Build {
  mode : Mode;
  data : list Z
}.

(** The bytes of a value of a type, and reading such a value back. *)
Record Codec (A : Type) : Type := BuildCodec {
  put : A -> list Z;
  get : list Z -> option (A * list Z);
  valid : A -> Prop
}.
Arguments put {A} _ _.
Arguments get {A} _ _.
Arguments valid {A} _ _.

(** [n] bytes, least significant first. *)
Fixpoint put_le (n : nat) (x : Z) : list Z :=
  match n with
  | O => []
  | S n' => x mod 256 :: put_le n' (x / 256)
  end.

Fixpoint get_le (n : nat) (bytes : list Z) : option (Z * list Z) :=
  match n with
  | O => Some (0, bytes)
  | S n' =>
      match bytes with
      | [] => None
      | b :: bytes' =>
          match get_le n' bytes' with
          | Some (hi, rest) => Some (b + 256 * hi, rest)
          | None => None
          end
      end
  end.

Definition u32_codec : Codec Z :=
  BuildCodec Z (put_le 4) (get_le 4) is_u32.

Definition u16_codec : Codec Z :=
  BuildCodec Z (put_le 2) (get_le 2) is_u16.

Definition s16_codec : Codec Z :=
  BuildCodec Z (fun x => put_le 2 (u16 x))
    (fun bytes =>
       match get_le 2 bytes with
       | Some (x, rest) => Some (s16 x, rest)
       | None => None
       end)
    is_s16.

Definition bool_codec : Codec bool :=
  BuildCodec bool (fun b => [if b then 1 else 0])
    (fun bytes =>
       match bytes with
       | [] => None
       | b :: rest => Some (negb (b =? 0), rest)
       end)
    (fun _ => True).

(** [std::array<T, n>]: the elements one after the other. *)
Fixpoint put_array {A : Type} (c : Codec A) (l : list A) : list Z :=
  match l with
  | [] => []
  | x :: l' => put c x ++ put_array c l'
  end.

Fixpoint get_array {A : Type} (c : Codec A) (n : nat) (bytes : list Z)
    : option (list A * list Z) :=
  match n with
  | O => Some ([], bytes)
  | S n' =>
      match get c bytes with
      | Some (x, rest) =>
          match get_array c n' rest with
          | Some (l, rest') => Some (x :: l, rest')
          | None => None
          end
      | None => None
      end
  end.

Definition array_codec {A : Type} (n : nat) (c : Codec A)
    : Codec (list A) :=
  BuildCodec (list A) (put_array c) (get_array c n)
    (fun l => length l = n /\ Forall (valid c) l).

(** Code that runs on a [PointerWrap] and may fail. *)
Definition P (A : Type) : Type := t -> option (A * t).

#[global] Instance P_ret : MRet P := fun A x p => Some (x, p).

#[global] Instance P_bind : MBind P := fun A B f m p =>
  match m p with
  | Some (a, p') => f a p'
  | None => None
  end.

(** [p.Do(x)] *)
Definition Do {A : Type} (c : Codec A) (x : A) : P A := fun p =>
  match mode p with
  | MODE_WRITE => Some (x, Build MODE_WRITE (data p ++ put c x))
  | MODE_READ =>
      match get c (data p) with
      | Some (y, rest) => Some (y, Build MODE_READ rest)
      | None => None
      end
  end.

(** Reading returns the value written, and the bytes after it. *)
Definition codec_ok {A : Type} (c : Codec A) : Prop :=
  forall (x : A) (rest : list Z),
    valid c x -> get c (put c x ++ rest) = Some (x, rest).

End PointerWrap.

(** ** [class ZeldaAudioRenderer] *)

Module ZeldaAudioRenderer.

(** [typedef std::array<s16, 0x50> MixingBuffer] *)
Definition MixingBuffer_size : nat := 0x50.

(** The data members, in declaration order. *)
Record t : Type := Build {
  m_prepared : bool;
  m_output_lbuf_addr : Z;
  m_output_rbuf_addr : Z;
  m_output_volume : Z;
  m_buf_front_left : list Z;
  m_buf_front_right : list Z;
  m_buf_back_left : list Z;
  m_buf_back_right : list Z;
  m_buf_front_left_reverb : list Z;
  m_buf_front_right_reverb : list Z;
  m_buf_back_left_reverb : list Z;
  m_buf_back_right_reverb : list Z;
  m_vpb_base_addr : Z;
  m_sine_table : list Z;
  m_resampling_coeffs : list Z;
  m_afc_coeffs : list Z
}.

(** [template <size_t N, size_t B> void ApplyVolumeInPlace(buf, vol)]

    The product of the sample and the volume, both converted to [u32], is
    a product of unsigned 32-bit values: it is reduced modulo [2^32] and
    then stored in the [s32] variable [tmp];
    [>>=] on an [s32] is the arithmetic shift. *)
Definition ApplyVolumeInPlace (N : nat) (B : Z) (buf : list Z) (vol : Z)
    : list Z :=
  for_loop N 0 (fun i buf =>
    let tmp := s32 (u32 (u32 (buf !!! i) * u32 vol)) in
    let tmp := Z.shiftr tmp (16 - B) in
    let tmp := MathUtil.Clamp tmp (-0x8000) 0x7fff in
    <[i := s16 tmp]> buf) buf.

Definition ApplyVolumeInPlace_1_15 (N : nat) (buf : list Z) (vol : Z)
    : list Z :=
  ApplyVolumeInPlace N 1 buf vol.

Definition ApplyVolumeInPlace_4_12 (N : nat) (buf : list Z) (vol : Z)
    : list Z :=
  ApplyVolumeInPlace N 4 buf vol.

(** [template <size_t N> s32 AddBuffersWithVolumeRamp(dst, src, vol, step)]

    The result pairs the destination buffer after the call with the
    returned volume.  [(vol >> 16) * src[i]] is computed on [int] and cannot
    overflow; [+=] on an [s16] element converts the [int] sum back to
    [s16]; [vol += step] is an [s32] addition. *)
Definition AddBuffersWithVolumeRamp (N : nat) (dst src : list Z)
    (vol step : Z) : list Z * Z :=
  if (vol =? 0) && (step =? 0) then (dst, vol)
  else
    for_loop N 0 (fun i '(dst, vol) =>
      let dst :=
        <[i := s16 (dst !!! i
                    + Z.shiftr (Z.shiftr vol 16 * (src !!! i)) 16)]> dst in
      let vol := s32 (vol + step) in
      (dst, vol)) (dst, vol).

(** What one iteration of [AddBuffersWithVolumeRamp] adds to [dst[i]],
    from the running volume and the source sample. *)
Definition contribution (vol sample : Z) : Z :=
  Z.shiftr (Z.shiftr vol 16 * sample) 16.

(** The running volume when iteration [i] starts: [i] additions of [step]
    on an [s32]. *)
Definition ramp_volume (vol step : Z) (i : nat) : Z :=
  s32 (vol + Z.of_nat i * step).

(** The mixing step in the words of the specification, for comparison with
    [AddBuffersWithVolumeRamp]: the contribution is clamped to
    [[-32768, 32767]] before it is added to the bus; the running volume is
    not clamped. *)
Definition AddBuffersWithVolumeRamp_clamped (N : nat) (dst src : list Z)
    (vol step : Z) : list Z * Z :=
  if (vol =? 0) && (step =? 0) then (dst, vol)
  else
    for_loop N 0 (fun i '(dst, vol) =>
      let c := MathUtil.Clamp (contribution vol (src !!! i))
                 (-32768) 32767 in
      (<[i := s16 (dst !!! i + c)]> dst, s32 (vol + step))) (dst, vol).

(** Volume application in the words of the specification: integer
    multiply, arithmetic right shift by [shift] bits, clamp. *)
Definition apply_volume (shift : Z) (vol sample : Z) : Z :=
  MathUtil.Clamp (Z.shiftr (sample * vol) shift) (-32768) 32767.

(** *** Voice parameter blocks and the loading of raw samples *)

(** Modelled from the spec: the encoding kind of a sample source: raw
    PCM16, PCM8, or AFC-compressed. *)
Inductive Encoding : Type := PCM16 | PCM8 | AFC.

(** Modelled from the spec: [struct VPB], which [Zelda.h] only declares:
    the sample-source descriptor (encoding kind, base address, current read
    offset, loop point and loop-enabled flag, total sample count), the
    resampling state (playback ratio, fractional phase) and, per bus, the
    current volume, the target volume and the ramp step. *)
Record VPB : Type := BuildVPB {
  encoding : Encoding;
  base_address : Z;
  read_offset : Z;
  loop_point : Z;
  loop_enabled : bool;
  sample_count : Z;
  ratio : Z;
  phase : Z;
  volumes : list (Z * Z * Z)
}.

Definition set_read_offset (v : Z) (vpb : VPB) : VPB :=
  BuildVPB (encoding vpb) (base_address vpb) v (loop_point vpb)
    (loop_enabled vpb) (sample_count vpb) (ratio vpb) (phase vpb)
    (volumes vpb).

(** Modelled from the spec: the fetch of [requested_samples_count] raw
    samples shared by the three [Download...Samples...] members, which
    [Zelda.h] only declares.  [sample pos] is the decoded sample at
    position [pos] of the source.  At the sample-count boundary a looping
    voice goes back to [loop_target]; a voice at or past the boundary with
    looping disabled yields silence for the rest of the request and does
    not wrap. *)
Fixpoint download (sample : Z -> Z) (loop_target : Z)
    (requested_samples_count : nat) (vpb : VPB) : list Z * VPB :=
  match requested_samples_count with
  | O => ([], vpb)
  | S remaining =>
      let vpb :=
        if (sample_count vpb <=? read_offset vpb) && loop_enabled vpb
        then set_read_offset loop_target vpb
        else vpb in
      if read_offset vpb <? sample_count vpb then
        let '(rest, vpb') :=
          download sample loop_target remaining
            (set_read_offset (read_offset vpb + 1) vpb) in
        (sample (read_offset vpb) :: rest, vpb')
      else (replicate (S remaining) 0, vpb)
  end.

Section Samples.

(** Guest memory, through the load-by-address primitives of the memory
    collaborator: a 16-bit sample of main memory, a byte of ARAM; the
    block-wise AFC decoder, as the sample it produces at a position of a
    voice's source, and the number of samples of one compressed block. *)
Variable mram_s16 : Z -> Z.
Variable aram_u8 : Z -> Z.
Variable afc_sample : VPB -> Z -> Z.
Variable afc_block_samples : Z.

(** Modelled from the spec: PCM16 is a direct copy. *)
Definition DownloadRawSamplesFromMRAM (requested_samples_count : nat)
    (vpb : VPB) : list Z * VPB :=
  download (fun pos => mram_s16 (base_address vpb + 2 * pos))
    (loop_point vpb) requested_samples_count vpb.

(** Modelled from the spec: PCM8 is a byte-to-16-bit sign and scale
    expansion, with the same looping rule. *)
Definition DownloadPCM8SamplesFromARAM (requested_samples_count : nat)
    (vpb : VPB) : list Z * VPB :=
  download (fun pos => s8 (aram_u8 (base_address vpb + pos)) * 256)
    (loop_point vpb) requested_samples_count vpb.

(** Modelled from the spec: AFC decodes block-wise; looping seeks back
    to the block that contains the loop point. *)
Definition DownloadAFCSamplesFromARAM (requested_samples_count : nat)
    (vpb : VPB) : list Z * VPB :=
  download (afc_sample vpb)
    (loop_point vpb / afc_block_samples * afc_block_samples)
    requested_samples_count vpb.

(** Modelled from the spec: the raw samples [LoadInputSamples] asks for,
    from the source the encoding kind selects. *)
Definition LoadRawSamples (requested_samples_count : nat) (vpb : VPB)
    : list Z * VPB :=
  match encoding vpb with
  | PCM16 => DownloadRawSamplesFromMRAM requested_samples_count vpb
  | PCM8 => DownloadPCM8SamplesFromARAM requested_samples_count vpb
  | AFC => DownloadAFCSamplesFromARAM requested_samples_count vpb
  end.

End Samples.

(** *** Snapshots *)

Definition mixing_buffer_codec : PointerWrap.Codec (list Z) :=
  PointerWrap.array_codec 0x50 PointerWrap.s16_codec.
Definition sine_table_codec : PointerWrap.Codec (list Z) :=
  PointerWrap.array_codec 0x80 PointerWrap.s16_codec.
Definition resampling_coeffs_codec : PointerWrap.Codec (list Z) :=
  PointerWrap.array_codec 0x100 PointerWrap.s16_codec.
Definition afc_coeffs_codec : PointerWrap.Codec (list Z) :=
  PointerWrap.array_codec 0x20 PointerWrap.s16_codec.

(** Modelled from the spec: [ZeldaAudioRenderer::DoState], declared in
    [Zelda.h] and defined in [Zelda.cpp], which is not among the sources:
    all renderer fields outside the VPBs (coefficient tables, output
    addresses, output volume, and the rest of the members) pass through
    the [PointerWrap], in declaration order. *)
Definition DoState (r : t) : PointerWrap.P t :=
  prepared ← PointerWrap.Do PointerWrap.bool_codec (m_prepared r);
  lbuf ← PointerWrap.Do PointerWrap.u32_codec (m_output_lbuf_addr r);
  rbuf ← PointerWrap.Do PointerWrap.u32_codec (m_output_rbuf_addr r);
  volume ← PointerWrap.Do PointerWrap.u16_codec (m_output_volume r);
  fl ← PointerWrap.Do mixing_buffer_codec (m_buf_front_left r);
  fr ← PointerWrap.Do mixing_buffer_codec (m_buf_front_right r);
  bl ← PointerWrap.Do mixing_buffer_codec (m_buf_back_left r);
  br ← PointerWrap.Do mixing_buffer_codec (m_buf_back_right r);
  flr ← PointerWrap.Do mixing_buffer_codec (m_buf_front_left_reverb r);
  frr ← PointerWrap.Do mixing_buffer_codec (m_buf_front_right_reverb r);
  blr ← PointerWrap.Do mixing_buffer_codec (m_buf_back_left_reverb r);
  brr ← PointerWrap.Do mixing_buffer_codec (m_buf_back_right_reverb r);
  vpb_base ← PointerWrap.Do PointerWrap.u32_codec (m_vpb_base_addr r);
  sine ← PointerWrap.Do sine_table_codec (m_sine_table r);
  resampling ← PointerWrap.Do resampling_coeffs_codec
                 (m_resampling_coeffs r);
  afc ← PointerWrap.Do afc_coeffs_codec (m_afc_coeffs r);
  mret (Build prepared lbuf rbuf volume fl fr bl br flr frr blr brr
          vpb_base sine resampling afc).

(** Every member holds a value of its type. *)
Definition well_formed (r : t) : Prop :=
  is_u32 (m_output_lbuf_addr r)
  /\ is_u32 (m_output_rbuf_addr r)
  /\ is_u16 (m_output_volume r)
  /\ PointerWrap.valid mixing_buffer_codec (m_buf_front_left r)
  /\ PointerWrap.valid mixing_buffer_codec (m_buf_front_right r)
  /\ PointerWrap.valid mixing_buffer_codec (m_buf_back_left r)
  /\ PointerWrap.valid mixing_buffer_codec (m_buf_back_right r)
  /\ PointerWrap.valid mixing_buffer_codec (m_buf_front_left_reverb r)
  /\ PointerWrap.valid mixing_buffer_codec (m_buf_front_right_reverb r)
  /\ PointerWrap.valid mixing_buffer_codec (m_buf_back_left_reverb r)
  /\ PointerWrap.valid mixing_buffer_codec (m_buf_back_right_reverb r)
  /\ is_u32 (m_vpb_base_addr r)
  /\ PointerWrap.valid sine_table_codec (m_sine_table r)
  /\ PointerWrap.valid resampling_coeffs_codec (m_resampling_coeffs r)
  /\ PointerWrap.valid afc_coeffs_codec (m_afc_coeffs r).

(** The bytes of a snapshot of the renderer. *)
Definition snapshot_bytes (r : t) : list Z :=
  PointerWrap.put PointerWrap.bool_codec (m_prepared r)
  ++ PointerWrap.put PointerWrap.u32_codec (m_output_lbuf_addr r)
  ++ PointerWrap.put PointerWrap.u32_codec (m_output_rbuf_addr r)
  ++ PointerWrap.put PointerWrap.u16_codec (m_output_volume r)
  ++ PointerWrap.put mixing_buffer_codec (m_buf_front_left r)
  ++ PointerWrap.put mixing_buffer_codec (m_buf_front_right r)
  ++ PointerWrap.put mixing_buffer_codec (m_buf_back_left r)
  ++ PointerWrap.put mixing_buffer_codec (m_buf_back_right r)
  ++ PointerWrap.put mixing_buffer_codec (m_buf_front_left_reverb r)
  ++ PointerWrap.put mixing_buffer_codec (m_buf_front_right_reverb r)
  ++ PointerWrap.put mixing_buffer_codec (m_buf_back_left_reverb r)
  ++ PointerWrap.put mixing_buffer_codec (m_buf_back_right_reverb r)
  ++ PointerWrap.put PointerWrap.u32_codec (m_vpb_base_addr r)
  ++ PointerWrap.put sine_table_codec (m_sine_table r)
  ++ PointerWrap.put resampling_coeffs_codec (m_resampling_coeffs r)
  ++ PointerWrap.put afc_coeffs_codec (m_afc_coeffs r).

End ZeldaAudioRenderer.

(** ** Logging ([Common/Logging/Log.h]: [ERROR_LOG], [WARN_LOG])

    A log call is an effect: the functions below return the entries they
    emit, in order. *)

Module Log.

Inductive Level : Type := LERROR | LWARNING.
Inductive Channel : Type := DSPHLE | AUDIO.

Record Entry : Type := Build {
  level : Level;
  channel : Channel;
  format : string;
  args : list Z
}.

End Log.

(** ** [class ZeldaUCode] *)

Module ZeldaUCode.

(** [enum class MailState : u32] *)
Inductive MailState : Type :=
| WAITING
| RENDERING
| WRITING_CMD
| HALTED.

(** [enum class CommandAck : u32] *)
Inductive CommandAck : Type :=
| STANDARD
| DONE_RENDERING.

(** [sizeof (m_cmd_buffer) / sizeof (u32)] for [std::array<u32, 64>]. *)
Definition cmd_buffer_size : Z := 64.

(** The data members, in declaration order. *)
Record t : Type := Build {
  m_mail_current_state : MailState;
  m_mail_expected_cmd_mails : Z;
  m_sync_max_voice_id : Z;
  m_sync_voice_skip_flags : list Z;
  m_cmd_buffer : list Z;
  m_read_offset : Z;
  m_write_offset : Z;
  m_pending_commands_count : Z;
  m_cmd_can_execute : bool;
  m_rendering_requested_frames : Z;
  m_rendering_voices_per_frame : Z;
  m_rendering_curr_frame : Z;
  m_rendering_curr_voice : Z;
  m_renderer : ZeldaAudioRenderer.t
}.

(** Assignments to single members. *)
Definition set_m_mail_current_state (v : MailState) (s : t) : t :=
  Build v (m_mail_expected_cmd_mails s) (m_sync_max_voice_id s)
    (m_sync_voice_skip_flags s) (m_cmd_buffer s) (m_read_offset s)
    (m_write_offset s) (m_pending_commands_count s) (m_cmd_can_execute s)
    (m_rendering_requested_frames s) (m_rendering_voices_per_frame s)
    (m_rendering_curr_frame s) (m_rendering_curr_voice s) (m_renderer s).

Definition set_m_mail_expected_cmd_mails (v : Z) (s : t) : t :=
  Build (m_mail_current_state s) v (m_sync_max_voice_id s)
    (m_sync_voice_skip_flags s) (m_cmd_buffer s) (m_read_offset s)
    (m_write_offset s) (m_pending_commands_count s) (m_cmd_can_execute s)
    (m_rendering_requested_frames s) (m_rendering_voices_per_frame s)
    (m_rendering_curr_frame s) (m_rendering_curr_voice s) (m_renderer s).

Definition set_m_cmd_buffer (v : list Z) (s : t) : t :=
  Build (m_mail_current_state s) (m_mail_expected_cmd_mails s)
    (m_sync_max_voice_id s) (m_sync_voice_skip_flags s) v (m_read_offset s)
    (m_write_offset s) (m_pending_commands_count s) (m_cmd_can_execute s)
    (m_rendering_requested_frames s) (m_rendering_voices_per_frame s)
    (m_rendering_curr_frame s) (m_rendering_curr_voice s) (m_renderer s).

Definition set_m_read_offset (v : Z) (s : t) : t :=
  Build (m_mail_current_state s) (m_mail_expected_cmd_mails s)
    (m_sync_max_voice_id s) (m_sync_voice_skip_flags s) (m_cmd_buffer s) v
    (m_write_offset s) (m_pending_commands_count s) (m_cmd_can_execute s)
    (m_rendering_requested_frames s) (m_rendering_voices_per_frame s)
    (m_rendering_curr_frame s) (m_rendering_curr_voice s) (m_renderer s).

Definition set_m_write_offset (v : Z) (s : t) : t :=
  Build (m_mail_current_state s) (m_mail_expected_cmd_mails s)
    (m_sync_max_voice_id s) (m_sync_voice_skip_flags s) (m_cmd_buffer s)
    (m_read_offset s) v (m_pending_commands_count s) (m_cmd_can_execute s)
    (m_rendering_requested_frames s) (m_rendering_voices_per_frame s)
    (m_rendering_curr_frame s) (m_rendering_curr_voice s) (m_renderer s).

Definition set_m_pending_commands_count (v : Z) (s : t) : t :=
  Build (m_mail_current_state s) (m_mail_expected_cmd_mails s)
    (m_sync_max_voice_id s) (m_sync_voice_skip_flags s) (m_cmd_buffer s)
    (m_read_offset s) (m_write_offset s) v (m_cmd_can_execute s)
    (m_rendering_requested_frames s) (m_rendering_voices_per_frame s)
    (m_rendering_curr_frame s) (m_rendering_curr_voice s) (m_renderer s).

(** Member functions run on the object and may log: a state monad over
    [t] that also collects the log entries. *)
Definition M (A : Type) : Type := t -> A * t * list Log.Entry.

#[global] Instance M_ret : MRet M := fun A x s => (x, s, []).

#[global] Instance M_bind : MBind M := fun A B f m s =>
  let '(a, s1, l1) := m s in
  let '(b, s2, l2) := f a s1 in
  (b, s2, l1 ++ l2).

Definition gets {A : Type} (f : t -> A) : M A := fun s => (f s, s, []).
Definition modify (f : t -> t) : M unit := fun s => (tt, f s, []).

Definition ERROR_LOG (c : Log.Channel) (fmt : string) : M unit :=
  fun s => (tt, s, [Log.Build Log.LERROR c fmt []]).

(** [void SetMailState(MailState new_state)] *)
Definition SetMailState (new_state : MailState) : M unit :=
  modify (set_m_mail_current_state new_state).

(** [u32 Read32()]

    Both cursors stay below 64 ([cmd_buffer_ok] further down), so neither
    this read nor the write of [Write32] is ever out of range. *)
Definition Read32 : M Z :=
  r ← gets m_read_offset;
  w ← gets m_write_offset;
  if r =? w then
    ERROR_LOG Log.DSPHLE "Reading too many command params";;
    mret 0
  else
    buf ← gets m_cmd_buffer;
    let res := buf !!! Z.to_nat r in
    modify (set_m_read_offset (u32 (r + 1) mod cmd_buffer_size));;
    mret res.

(** [void Write32(u32 val)] *)
Definition Write32 (val : Z) : M unit :=
  w ← gets m_write_offset;
  buf ← gets m_cmd_buffer;
  modify (set_m_cmd_buffer (<[Z.to_nat w := val]> buf));;
  modify (set_m_write_offset (u32 (w + 1) mod cmd_buffer_size)).

(** [bool RenderingInProgress() const] *)
Definition RenderingInProgress (s : t) : bool :=
  negb (m_rendering_curr_frame s =? m_rendering_requested_frames s).

(** Mail reception writes the words of a command one after the other, and
    command execution reads its parameters one after the other. *)
Fixpoint Write32_each (vals : list Z) : M unit :=
  match vals with
  | [] => mret tt
  | val :: vals' => Write32 val;; Write32_each vals'
  end.

Fixpoint Read32_times (n : nat) : M (list Z) :=
  match n with
  | O => mret []
  | S n' => res ← Read32; rest ← Read32_times n'; mret (res :: rest)
  end.

(** The object as the default member initialisers leave it;
    [m_vpb_base_addr] of the renderer has none and is given. *)
Definition zeros (n : nat) : list Z := replicate n 0.

Definition renderer_initial (vpb_base_addr : Z) : ZeldaAudioRenderer.t :=
  ZeldaAudioRenderer.Build false 0 0 0
    (zeros 0x50) (zeros 0x50) (zeros 0x50) (zeros 0x50)
    (zeros 0x50) (zeros 0x50) (zeros 0x50) (zeros 0x50)
    vpb_base_addr (zeros 0x80) (zeros 0x100) (zeros 0x20).

Definition initial (vpb_base_addr : Z) : t :=
  Build WAITING 0 0 (zeros 256) (zeros 64) 0 0 0 true 0 0 0 0
    (renderer_initial vpb_base_addr).

(** The command queue of an object: 64 words, both cursors below 64 (they
    start at 0 and are only ever assigned a value reduced modulo 64). *)
Definition cmd_buffer_ok (s : t) : Prop :=
  length (m_cmd_buffer s) = 64%nat
  /\ 0 <= m_read_offset s < 64
  /\ 0 <= m_write_offset s < 64.

(** [Write32] of the given words, then as many [Read32], then one more:
    the words come back in the order written, and the further read returns
    0 and leaves the buffer and both cursors as they are. *)
Definition fifo_round_trip (s : t) (vals : list Z) : Prop :=
  let '(_, s1, _) := Write32_each vals s in
  let '(out, s2, _) := Read32_times (length vals) s1 in
  let '(extra, s3, _) := Read32 s2 in
  out = vals
  /\ extra = 0
  /\ m_cmd_buffer s3 = m_cmd_buffer s2
  /\ m_read_offset s3 = m_read_offset s2
  /\ m_write_offset s3 = m_write_offset s2.

(** The words waiting in the queue of [s] are [q]: they sit from the
    read cursor on, modulo 64, and the write cursor follows them. *)
Definition holds (s : t) (q : list Z) : Prop :=
  cmd_buffer_ok s
  /\ (length q < 64)%nat
  /\ m_write_offset s = (m_read_offset s + Z.of_nat (length q)) mod 64
  /\ forall (i : nat) (x : Z), q !! i = Some x ->
       m_cmd_buffer s !! Z.to_nat ((m_read_offset s + Z.of_nat i) mod 64)
       = Some x.

(** The entry [Read32] logs on an empty queue. *)
Definition underrun_entry : Log.Entry :=
  Log.Build Log.LERROR Log.DSPHLE "Reading too many command params" [].

(** *** Mail reception *)

(** Modelled from the spec: what a mail received in WAITING is, by its
    value (the command set is closed but its opcode values are
    protocol-specific): a top-level instruction executed at once, the
    opcode of a multi-word command with the number of further words it
    expects, or no known opcode. *)
Inductive MailKind : Type :=
| Immediate
| MultiWord (params : Z)
| Unrecognized.

Section Protocol.

(** The opcode table, the effect of an immediate instruction and the
    handling of a mail that arrives during rendering. *)
Variable classify : Z -> MailKind.
Variable run_immediate : Z -> M unit.
Variable sync_mail : Z -> M unit.

(** Modelled from the spec: [ZeldaUCode::HandleMail], declared in
    [Zelda.h] and defined in [Zelda.cpp], which is not among the sources.
    WAITING: the mail is classified; the opcode of a multi-word command
    records how many further words are expected and leads to
    WRITING_CMD, an unrecognized opcode to HALTED.  WRITING_CMD: each
    incoming parameter mail is appended to the command buffer ([Write32])
    until the expected count is reached; then the command, opcode and
    parameters, counts as queued and the state returns to WAITING.  A mail
    that is itself an opcode is inconsistent with WRITING_CMD: it is a
    protocol violation, which leads to HALTED, and it is not taken for the
    missing parameter.  HALTED absorbs every mail. *)
Definition HandleMail (mail : Z) : M unit :=
  state ← gets m_mail_current_state;
  match state with
  | WAITING =>
      match classify mail with
      | Immediate => run_immediate mail
      | MultiWord params =>
          Write32 mail;;
          modify (set_m_mail_expected_cmd_mails params);;
          SetMailState WRITING_CMD
      | Unrecognized => SetMailState HALTED
      end
  | WRITING_CMD =>
      match classify mail with
      | Unrecognized =>
          Write32 mail;;
          expected ← gets m_mail_expected_cmd_mails;
          let expected := u32 (expected - 1) in
          modify (set_m_mail_expected_cmd_mails expected);;
          if expected =? 0 then
            pending ← gets m_pending_commands_count;
            modify (set_m_pending_commands_count (u32 (pending + 1)));;
            SetMailState WAITING
          else mret tt
      | Immediate | MultiWord _ => SetMailState HALTED
      end
  | RENDERING => sync_mail mail
  | HALTED => mret tt
  end.

(** The mails of a sequence, received in order. *)
Fixpoint HandleMail_each (mails : list Z) : M unit :=
  match mails with
  | [] => mret tt
  | mail :: mails' => HandleMail mail;; HandleMail_each mails'
  end.

(** The opcode [op] of a command with 3 parameters, the mails [p1] and
    [p2] and then the mail [op'] leave the state machine HALTED. *)
Definition halts_on_interrupted_command (s : t) (op p1 p2 op' : Z)
    : Prop :=
  let '(_, s', _) := HandleMail_each [op; p1; p2; op'] s in
  m_mail_current_state s' = HALTED.

End Protocol.

(** An opcode table with two multi-word commands: opcode 1 expects three
    parameters and opcode 2 expects one. *)
Definition two_commands (mail : Z) : MailKind :=
  if mail =? 1 then MultiWord 3
  else if mail =? 2 then MultiWord 1
  else Unrecognized.

(** *** Snapshots *)

(** [enum class MailState : u32], as its underlying value. *)
Definition MailState_to_u32 (state : MailState) : Z :=
  match state with
  | WAITING => 0
  | RENDERING => 1
  | WRITING_CMD => 2
  | HALTED => 3
  end.

Definition MailState_of_u32 (x : Z) : option MailState :=
  if x =? 0 then Some WAITING
  else if x =? 1 then Some RENDERING
  else if x =? 2 then Some WRITING_CMD
  else if x =? 3 then Some HALTED
  else None.

Definition MailState_codec : PointerWrap.Codec MailState :=
  PointerWrap.BuildCodec MailState
    (fun state => PointerWrap.put_le 4 (MailState_to_u32 state))
    (fun bytes =>
       match PointerWrap.get_le 4 bytes with
       | Some (x, rest) =>
           match MailState_of_u32 x with
           | Some state => Some (state, rest)
           | None => None
           end
       | None => None
       end)
    (fun _ => True).

Definition skip_flags_codec : PointerWrap.Codec (list Z) :=
  PointerWrap.array_codec 256 PointerWrap.u32_codec.
Definition cmd_buffer_codec : PointerWrap.Codec (list Z) :=
  PointerWrap.array_codec 64 PointerWrap.u32_codec.

(** Modelled from the spec: [ZeldaUCode::DoState], declared in [Zelda.h]
    and defined in [Zelda.cpp], which is not among the sources: the mailbox
    state, the command buffer with its cursors and counter, the
    rendering-progress counters, the sync and skip-flag state and the
    renderer pass through the [PointerWrap], in declaration order. *)
Definition DoState (s : t) : PointerWrap.P t :=
  state ← PointerWrap.Do MailState_codec (m_mail_current_state s);
  expected ← PointerWrap.Do PointerWrap.u32_codec
               (m_mail_expected_cmd_mails s);
  max_voice ← PointerWrap.Do PointerWrap.u32_codec (m_sync_max_voice_id s);
  skip ← PointerWrap.Do skip_flags_codec (m_sync_voice_skip_flags s);
  buf ← PointerWrap.Do cmd_buffer_codec (m_cmd_buffer s);
  r ← PointerWrap.Do PointerWrap.u32_codec (m_read_offset s);
  w ← PointerWrap.Do PointerWrap.u32_codec (m_write_offset s);
  pending ← PointerWrap.Do PointerWrap.u32_codec
              (m_pending_commands_count s);
  can ← PointerWrap.Do PointerWrap.bool_codec (m_cmd_can_execute s);
  frames ← PointerWrap.Do PointerWrap.u32_codec
             (m_rendering_requested_frames s);
  voices ← PointerWrap.Do PointerWrap.u16_codec
             (m_rendering_voices_per_frame s);
  frame ← PointerWrap.Do PointerWrap.u32_codec (m_rendering_curr_frame s);
  voice ← PointerWrap.Do PointerWrap.u32_codec (m_rendering_curr_voice s);
  renderer ← ZeldaAudioRenderer.DoState (m_renderer s);
  mret (Build state expected max_voice skip buf r w pending can frames
          voices frame voice renderer).

(** Every member holds a value of its type. *)
Definition well_formed (s : t) : Prop :=
  is_u32 (m_mail_expected_cmd_mails s)
  /\ is_u32 (m_sync_max_voice_id s)
  /\ PointerWrap.valid skip_flags_codec (m_sync_voice_skip_flags s)
  /\ PointerWrap.valid cmd_buffer_codec (m_cmd_buffer s)
  /\ is_u32 (m_read_offset s)
  /\ is_u32 (m_write_offset s)
  /\ is_u32 (m_pending_commands_count s)
  /\ is_u32 (m_rendering_requested_frames s)
  /\ is_u16 (m_rendering_voices_per_frame s)
  /\ is_u32 (m_rendering_curr_frame s)
  /\ is_u32 (m_rendering_curr_voice s)
  /\ ZeldaAudioRenderer.well_formed (m_renderer s).

(** The bytes of a snapshot of the object. *)
Definition snapshot_bytes (s : t) : list Z :=
  PointerWrap.put MailState_codec (m_mail_current_state s)
  ++ PointerWrap.put PointerWrap.u32_codec (m_mail_expected_cmd_mails s)
  ++ PointerWrap.put PointerWrap.u32_codec (m_sync_max_voice_id s)
  ++ PointerWrap.put skip_flags_codec (m_sync_voice_skip_flags s)
  ++ PointerWrap.put cmd_buffer_codec (m_cmd_buffer s)
  ++ PointerWrap.put PointerWrap.u32_codec (m_read_offset s)
  ++ PointerWrap.put PointerWrap.u32_codec (m_write_offset s)
  ++ PointerWrap.put PointerWrap.u32_codec (m_pending_commands_count s)
  ++ PointerWrap.put PointerWrap.bool_codec (m_cmd_can_execute s)
  ++ PointerWrap.put PointerWrap.u32_codec (m_rendering_requested_frames s)
  ++ PointerWrap.put PointerWrap.u16_codec (m_rendering_voices_per_frame s)
  ++ PointerWrap.put PointerWrap.u32_codec (m_rendering_curr_frame s)
  ++ PointerWrap.put PointerWrap.u32_codec (m_rendering_curr_voice s)
  ++ ZeldaAudioRenderer.snapshot_bytes (m_renderer s).

(** Saving runs [DoState] on an empty stream in write mode; restoring
    runs it in read mode on the object [into]. *)
Definition save (s : t) : option (list Z) :=
  match DoState s (PointerWrap.Build PointerWrap.MODE_WRITE []) with
  | Some (_, p) => Some (PointerWrap.data p)
  | None => None
  end.

Definition restore (into : t) (bytes : list Z) : option t :=
  match DoState into (PointerWrap.Build PointerWrap.MODE_READ bytes) with
  | Some (s, _) => Some s
  | None => None
  end.

(** *** Uses of the command buffer in any order *)

(** One use of the command buffer: [Write32] of a word, or [Read32]. *)
Inductive BufferOp : Type :=
| OpWrite32 (val : Z)
| OpRead32.

(** The uses in order; the values the reads return are collected. *)
Fixpoint run_ops (ops : list BufferOp) : M (list Z) :=
  match ops with
  | [] => mret []
  | OpWrite32 val :: ops' => Write32 val;; run_ops ops'
  | OpRead32 :: ops' =>
      res ← Read32; rest ← run_ops ops'; mret (res :: rest)
  end.

(** The same uses on an unbounded first-in first-out queue, a read of the
    empty queue answering 0: the values read and the queue left. *)
Fixpoint queue_ops (ops : list BufferOp) (q : list Z) : list Z * list Z :=
  match ops with
  | [] => ([], q)
  | OpWrite32 val :: ops' => queue_ops ops' (q ++ [val])
  | OpRead32 :: ops' =>
      match q with
      | [] => let '(rest, q') := queue_ops ops' [] in (0 :: rest, q')
      | x :: q0 => let '(rest, q') := queue_ops ops' q0 in (x :: rest, q')
      end
  end.

(** The members other than the buffer and its two cursors are the same in
    [s] and [s']. *)
Definition same_outside_buffer (s s' : t) : Prop :=
  m_mail_current_state s' = m_mail_current_state s
  /\ m_mail_expected_cmd_mails s' = m_mail_expected_cmd_mails s
  /\ m_sync_max_voice_id s' = m_sync_max_voice_id s
  /\ m_sync_voice_skip_flags s' = m_sync_voice_skip_flags s
  /\ m_pending_commands_count s' = m_pending_commands_count s
  /\ m_cmd_can_execute s' = m_cmd_can_execute s
  /\ m_rendering_requested_frames s' = m_rendering_requested_frames s
  /\ m_rendering_voices_per_frame s' = m_rendering_voices_per_frame s
  /\ m_rendering_curr_frame s' = m_rendering_curr_frame s
  /\ m_rendering_curr_voice s' = m_rendering_curr_voice s
  /\ m_renderer s' = m_renderer s.

(** No write of [ops] takes the number of waiting words, [pending] at the
    start, beyond 63. *)
Fixpoint within_capacity (ops : list BufferOp) (pending : nat) : Prop :=
  match ops with
  | [] => True
  | OpWrite32 _ :: ops' =>
      (S pending < 64)%nat /\ within_capacity ops' (S pending)
  | OpRead32 :: ops' => within_capacity ops' (Nat.pred pending)
  end.

End ZeldaUCode.

(** ** [class PulseAudio] ([AudioCommon/PulseAudioStream.cpp]) *)

Module PulseAudio.

Definition BUFFER_SAMPLES : Z := 512.
Definition CHANNEL_COUNT : Z := 2.
Definition sizeof_s16 : Z := 2.
Definition BUFFER_SIZE : Z := BUFFER_SAMPLES * CHANNEL_COUNT * sizeof_s16.

(** [pa_buffer_attr] of the PulseAudio client API: five [uint32_t] fields
    ([PulseInit] stores -1 into four of them for the largest value). *)
Record pa_buffer_attr : Type := BuildAttr {
  maxlength : Z;
  tlength : Z;
  prebuf : Z;
  minreq : Z;
  fragsize : Z
}.

Definition set_tlength (v : Z) (ba : pa_buffer_attr) : pa_buffer_attr :=
  BuildAttr (maxlength ba) v (prebuf ba) (minreq ba) (fragsize ba).

(** The members the callbacks use. *)
Record t : Type := Build {
  m_pa_error : Z;
  m_pa_connected : Z;
  m_pa_ba : pa_buffer_attr
}.

Definition set_m_pa_ba (v : pa_buffer_attr) (p : t) : t :=
  Build (m_pa_error p) (m_pa_connected p) v.

(** What a callback does outside the object: the request sent to the
    server and the log entry. *)
Inductive Effect : Type :=
| pa_stream_set_buffer_attr (attr : pa_buffer_attr)
| Logged (e : Log.Entry).

Definition WARN_LOG (c : Log.Channel) (fmt : string) (arg : Z) : Effect :=
  Logged (Log.Build Log.LWARNING c fmt [arg]).

(** The buffer attributes as [PulseInit] sets them before connecting. *)
Definition PulseInit_m_pa_ba : pa_buffer_attr :=
  {| fragsize := u32 (-1);
     maxlength := u32 (-1);
     minreq := u32 (-1);
     prebuf := u32 (-1);
     tlength := u32 BUFFER_SIZE |}.

(** [void PulseAudio::UnderflowCallback(pa_stream* s)] *)
Definition UnderflowCallback (p : t) : t * list Effect :=
  let ba := m_pa_ba p in
  let ba := set_tlength (u32 (tlength ba + BUFFER_SIZE)) ba in
  (set_m_pa_ba ba p,
   [pa_stream_set_buffer_attr ba;
    WARN_LOG Log.AUDIO "pulseaudio underflow, new latency: %d bytes"
      (tlength ba)]).

(** The object after [n] underflows in a row. *)
Fixpoint underflows (n : nat) (p : t) : t :=
  match n with
  | O => p
  | S n' => underflows n' (fst (UnderflowCallback p))
  end.

(** One underflow raises the requested latency by [BUFFER_SIZE]. *)
Definition latency_raised (p : t) : Prop :=
  tlength (m_pa_ba (UnderflowCallback p).1)
  = tlength (m_pa_ba p) + BUFFER_SIZE.

(** The object once [PulseInit] has connected the stream. *)
Definition connected : t := Build 0 1 PulseInit_m_pa_ba.

(** *** Connecting *)

Definition set_m_pa_error (v : Z) (p : t) : t :=
  Build v (m_pa_connected p) (m_pa_ba p).

Definition set_m_pa_connected (v : Z) (p : t) : t :=
  Build (m_pa_error p) v (m_pa_ba p).

(** [pa_context_state_t] of the PulseAudio client API. *)
Inductive pa_context_state_t : Type :=
| PA_CONTEXT_UNCONNECTED
| PA_CONTEXT_CONNECTING
| PA_CONTEXT_AUTHORIZING
| PA_CONTEXT_SETTING_NAME
| PA_CONTEXT_READY
| PA_CONTEXT_FAILED
| PA_CONTEXT_TERMINATED.

(** [void PulseAudio::StateCallback(pa_context* c)]; [state] is what
    [pa_context_get_state(c)] returns. *)
Definition StateCallback (state : pa_context_state_t) (p : t) : t :=
  match state with
  | PA_CONTEXT_FAILED | PA_CONTEXT_TERMINATED => set_m_pa_connected 2 p
  | PA_CONTEXT_READY => set_m_pa_connected 1 p
  | _ => p
  end.

(** The state callback called with each of the states in turn. *)
Definition notify (states : list pa_context_state_t) (p : t) : t :=
  foldl (fun p state => StateCallback state p) p states.

(** What the last of the states that [StateCallback] acts on asks for, if
    any of them does. *)
Definition verdict_of (state : pa_context_state_t) : option Z :=
  match state with
  | PA_CONTEXT_FAILED | PA_CONTEXT_TERMINATED => Some 2
  | PA_CONTEXT_READY => Some 1
  | _ => None
  end.

Fixpoint verdict (states : list pa_context_state_t) : option Z :=
  match states with
  | [] => None
  | state :: states' =>
      match verdict states' with
      | Some v => Some v
      | None => verdict_of state
      end
  end.

(** One call of [pa_mainloop_iterate] while [PulseInit] waits: the only
    callback registered by then is the context's state callback; the call
    runs it on the states the context goes through and returns a value,
    which [PulseInit] stores in [m_pa_error]. *)
Record Iteration : Type := BuildIteration {
  notified : list pa_context_state_t;
  returned : Z
}.

Definition iterate (it : Iteration) (p : t) : t :=
  set_m_pa_error (returned it) (notify (notified it) p).

Definition waiting (p : t) : bool :=
  (m_pa_connected p =? 0) && (0 <=? m_pa_error p).

(** [while (m_pa_connected == 0 && m_pa_error >= 0)
       m_pa_error = pa_mainloop_iterate(m_pa_ml, 1, nullptr);]
    over the calls the main loop answers, in order; [None] when the loop is
    still waiting after the last of them. *)
Fixpoint wait_connected (script : list Iteration) (p : t) : option t :=
  match script with
  | [] => if waiting p then None else Some p
  | it :: script' =>
      if waiting p then wait_connected script' (iterate it p) else Some p
  end.

(** The messages of [PulseInit]: [ERROR_LOG(AUDIO, "PulseAudio failed to
    initialize: %s", pa_strerror(m_pa_error))] with the error it reports,
    and [INFO_LOG(AUDIO, "Pulse successfully initialized")]. *)
Inductive InitLog : Type :=
| FailedToInitialize (error : Z)
| SuccessfullyInitialized.

(** [bool PulseAudio::PulseInit()], on the members above: the main loop,
    the context and the stream are handles of the library and stay opaque.
    [connect_result] is what [pa_context_connect] returns, [script] the
    calls of [pa_mainloop_iterate], [playback_result] what
    [pa_stream_connect_playback] returns. *)
Definition PulseInit (connect_result : Z) (script : list Iteration)
    (playback_result : Z) (p : t) : option (bool * t * list InitLog) :=
  let p := set_m_pa_error 0 p in
  let p := set_m_pa_connected 0 p in
  let p := set_m_pa_error connect_result p in
  match wait_connected script p with
  | None => None
  | Some p =>
      if (m_pa_connected p =? 2) || (m_pa_error p <? 0) then
        Some (false, p, [FailedToInitialize (m_pa_error p)])
      else
        let p := set_m_pa_ba PulseInit_m_pa_ba p in
        let p := set_m_pa_error playback_result p in
        if m_pa_error p <? 0 then
          Some (false, p, [FailedToInitialize (m_pa_error p)])
        else Some (true, p, [SuccessfullyInitialized])
  end.

(** An iteration that neither reports an error nor brings a state the
    callback acts on. *)
Definition quiet (it : Iteration) : Prop :=
  0 <= returned it /\ verdict (notified it) = None.

End PulseAudio.

(** * Properties *)

(** ** Facts on the integer conversions *)

Section IntFacts.

Lemma s16_id x : is_s16 x -> s16 x = x.
Proof. unfold is_s16, s16. intros H. rewrite Z.mod_small; lia. Qed.

Lemma s32_id x : is_s32 x -> s32 x = x.
Proof. unfold is_s32, s32. intros H. rewrite Z.mod_small; lia. Qed.

Lemma s32_range x : is_s32 (s32 x).
Proof.
  unfold is_s32, s32.
  pose proof (Z.mod_pos_bound (x + 2 ^ 31) (2 ^ 32)). lia.
Qed.

Lemma s16_range x : is_s16 (s16 x).
Proof.
  unfold is_s16, s16.
  pose proof (Z.mod_pos_bound (x + 2 ^ 15) (2 ^ 16)). lia.
Qed.

Lemma s32_add_l x y : s32 (s32 x + y) = s32 (x + y).
Proof.
  unfold s32.
  replace ((x + 2 ^ 31) mod 2 ^ 32 - 2 ^ 31 + y + 2 ^ 31)
    with ((x + 2 ^ 31) mod 2 ^ 32 + y) by lia.
  rewrite Zplus_mod_idemp_l. do 2 f_equal. lia.
Qed.

Lemma s32_u32 x : s32 (u32 x) = s32 x.
Proof.
  unfold s32, u32. f_equal.
  rewrite Zplus_mod_idemp_l. reflexivity.
Qed.

Lemma u32_mul x y : u32 (u32 x * u32 y) = u32 (x * y).
Proof. unfold u32. symmetry. apply Zmult_mod. Qed.

End IntFacts.

(** ** Counted loops: invariants *)

Section ForLoop.

Context {St : Type}.
Implicit Types (body : nat -> St -> St) (st : St).

(** A property of the index and the state that every iteration carries
    from [j] to [S j] holds when the loop is left. *)
Lemma for_loop_invariant (P : nat -> St -> Prop) body count i st :
  P i st ->
  (forall j st', (i <= j < i + count)%nat -> P j st' -> P (S j) (body j st')) ->
  P (i + count)%nat (for_loop count i body st).
Proof.
  revert i st. induction count as [|count IH]; intros i st Hi Hstep; simpl.
  - by rewrite Nat.add_0_r.
  - replace (i + S count)%nat with (S i + count)%nat by lia.
    apply IH.
    + apply Hstep; [lia | done].
    + intros j st' Hj. apply Hstep. lia.
Qed.

(** Two bodies that agree on the states of an invariant of the second
    give the same loop. *)
Lemma for_loop_ext (I : St -> Prop) body1 body2 count i st :
  I st ->
  (forall j st', I st' -> body1 j st' = body2 j st' /\ I (body2 j st')) ->
  for_loop count i body1 st = for_loop count i body2 st.
Proof.
  intros Hst Hbody. revert i st Hst.
  induction count as [|count IH]; intros i st Hst; simpl; [done|].
  destruct (Hbody i st Hst) as [-> HI]. by apply IH.
Qed.

End ForLoop.

(** ** [ZeldaAudioRenderer]: volume application and mixing *)

Section Renderer.

Import ZeldaAudioRenderer.

Lemma Clamp_range val : is_s16 (MathUtil.Clamp val (-0x8000) 0x7fff).
Proof.
  unfold MathUtil.Clamp, is_s16.
  destruct (Z.ltb_spec val (-0x8000)); [lia|].
  destruct (Z.ltb_spec 0x7fff val); lia.
Qed.

Lemma Clamp_id val : is_s16 val -> MathUtil.Clamp val (-0x8000) 0x7fff = val.
Proof.
  unfold MathUtil.Clamp, is_s16. intros H.
  destruct (Z.ltb_spec val (-0x8000)); [lia|].
  destruct (Z.ltb_spec 0x7fff val); lia.
Qed.

(** The unsigned 32-bit product, read back as an [s32], is the product of
    the signed sample and the volume: that product fits 32 bits. *)
Lemma volume_product_exact sample vol :
  is_s16 sample -> is_u16 vol ->
  s32 (u32 (u32 sample * u32 vol)) = sample * vol.
Proof.
  unfold is_s16, is_u16. intros Hs Hv.
  rewrite u32_mul, s32_u32. apply s32_id. unfold is_s32. nia.
Qed.

(** A loop that rewrites element [i] from its own value alone is a map. *)
Lemma for_loop_map (f : Z -> Z) (buf : list Z) :
  for_loop (length buf) 0 (fun i b => <[i := f (b !!! i)]> b) buf
  = f <$> buf.
Proof.
  pose (P := fun (j : nat) (b : list Z) =>
    length b = length buf /\
    forall k, b !! k = if decide (k < j)%nat then f <$> buf !! k else buf !! k).
  assert (P (0 + length buf)%nat
    (for_loop (length buf) 0 (fun i b => <[i := f (b !!! i)]> b) buf))
    as [Hlen Hall].
  { apply for_loop_invariant.
    - split; [done|]. intros k. case_decide; [lia | done].
    - intros j b Hj [Hlen Hall]. split; [by rewrite length_insert|].
      intros k. destruct (decide (k = j)) as [->|Hne].
      + rewrite list_lookup_insert_eq by lia.
        case_decide; [|lia].
        specialize (Hall j). case_decide; [lia|].
        destruct (buf !! j) as [x|] eqn:Hx.
        * by rewrite (list_lookup_total_correct _ _ _ Hall).
        * apply lookup_ge_None in Hx. lia.
      + rewrite list_lookup_insert_ne by done.
        rewrite Hall. repeat case_decide; try done; lia. }
  apply list_eq. intros k. rewrite Hall, list_lookup_fmap.
  case_decide as Hk; [done|].
  rewrite lookup_ge_None_2 by lia. done.
Qed.

Lemma ApplyVolumeInPlace_map B (buf : list Z) vol :
  Forall is_s16 buf -> is_u16 vol ->
  ApplyVolumeInPlace (length buf) B buf vol
  = apply_volume (16 - B) vol <$> buf.
Proof.
  intros Hbuf Hvol. unfold ApplyVolumeInPlace.
  rewrite (for_loop_map (fun x =>
    s16 (MathUtil.Clamp (Z.shiftr (s32 (u32 (u32 x * u32 vol))) (16 - B))
           (-0x8000) 0x7fff))).
  apply list_eq. intros k. rewrite !list_lookup_fmap.
  destruct (buf !! k) as [x|] eqn:Hx; [simpl|done].
  f_equal. rewrite s16_id by apply Clamp_range.
  unfold apply_volume. rewrite volume_product_exact; [done| |done].
  eapply Forall_lookup_1; eauto.
Qed.

(** C6. [ApplyVolumeInPlace] replaces every sample of the buffer by the
    product of the sample and the 16-bit volume, shifted right
    arithmetically (15 bits in [ApplyVolumeInPlace_1_15], 12 bits in
    [ApplyVolumeInPlace_4_12]) and then clamped to [-32768, 32767]. *)
Theorem ApplyVolumeInPlace_multiply_shift_clamp (buf : list Z) (vol : Z) :
  Forall is_s16 buf -> is_u16 vol ->
  ApplyVolumeInPlace_1_15 (length buf) buf vol
  = (fun sample =>
       MathUtil.Clamp (Z.shiftr (sample * vol) 15) (-32768) 32767) <$> buf
  /\ ApplyVolumeInPlace_4_12 (length buf) buf vol
  = (fun sample =>
       MathUtil.Clamp (Z.shiftr (sample * vol) 12) (-32768) 32767) <$> buf.
Proof.
  intros Hbuf Hvol.
  unfold ApplyVolumeInPlace_1_15, ApplyVolumeInPlace_4_12.
  rewrite !ApplyVolumeInPlace_map by done. done.
Qed.

Lemma ApplyVolumeInPlace_multiply_shift_clamp_witness :
  ApplyVolumeInPlace_1_15 3 [-32768; 100; 32767] 0xFFFF
  = [-32768; 199; 32767]
  /\ ApplyVolumeInPlace_4_12 3 [-32768; 100; 32767] 0x0800
  = [-16384; 50; 16383].
Proof.
  pose proof (ApplyVolumeInPlace_multiply_shift_clamp
                [-32768; 100; 32767] 0xFFFF) as H1.
  pose proof (ApplyVolumeInPlace_multiply_shift_clamp
                [-32768; 100; 32767] 0x0800) as H2.
  split.
  - apply H1; [repeat constructor; unfold is_s16; lia | unfold is_u16; lia].
  - apply H2; [repeat constructor; unfold is_s16; lia | unfold is_u16; lia].
Defined.

(** Unity volume in 1.15 and twice unity in 4.12, the latter saturating. *)
Example ApplyVolumeInPlace_1_15_unity :
  ApplyVolumeInPlace_1_15 2 [0x4000; -0x4000] 0x8000 = [0x4000; -0x4000].
Proof. reflexivity. Qed.

Example ApplyVolumeInPlace_4_12_saturates :
  ApplyVolumeInPlace_4_12 2 [0x4000; -0x4000] 0x2000 = [32767; -32768].
Proof. reflexivity. Qed.

(** C3. With current volume zero and step zero, [AddBuffersWithVolumeRamp]
    leaves the destination bus as it is, whatever the source buffer, and
    returns the zero volume. *)
Theorem AddBuffersWithVolumeRamp_zero_noop (N : nat) (dst src : list Z) :
  AddBuffersWithVolumeRamp N dst src 0 0 = (dst, 0).
Proof. reflexivity. Qed.

Lemma ramp_volume_0 vol step : is_s32 vol -> ramp_volume vol step 0 = vol.
Proof.
  intros H. unfold ramp_volume. rewrite Z.mul_0_l, Z.add_0_r.
  by apply s32_id.
Qed.

Lemma ramp_volume_S vol step i :
  s32 (ramp_volume vol step i + step) = ramp_volume vol step (S i).
Proof. unfold ramp_volume. rewrite s32_add_l. f_equal. lia. Qed.

(** The loop of [AddBuffersWithVolumeRamp], sample by sample. *)
Lemma ramp_loop_spec (dst src : list Z) (vol step : Z) :
  is_s32 vol ->
  for_loop (length dst) 0 (fun i '(dst, vol) =>
      let dst :=
        <[i := s16 (dst !!! i
                    + Z.shiftr (Z.shiftr vol 16 * (src !!! i)) 16)]> dst in
      let vol := s32 (vol + step) in
      (dst, vol)) (dst, vol)
  = (imap (fun i d =>
       s16 (d + contribution (ramp_volume vol step i) (src !!! i))) dst,
     ramp_volume vol step (length dst)).
Proof.
  intros Hvol.
  pose (P := fun (j : nat) (st : list Z * Z) =>
    length st.1 = length dst /\
    st.2 = ramp_volume vol step j /\
    forall k, st.1 !! k =
      if decide (k < j)%nat
      then (fun d => s16 (d + contribution (ramp_volume vol step k)
                                (src !!! k))) <$> dst !! k
      else dst !! k).
  match goal with |- for_loop ?n 0 ?body ?st = _ =>
    assert (P (0 + n)%nat (for_loop n 0 body st)) as HP
  end.
  { apply for_loop_invariant.
    - split_and!; [done | by rewrite ramp_volume_0 |].
      intros k. case_decide; [lia | done].
    - intros j [d v] Hj (Hlen & Hv & Hall). simpl in *. subst v.
      split_and!; simpl.
      + by rewrite length_insert.
      + apply ramp_volume_S.
      + intros k. destruct (decide (k = j)) as [->|Hne].
        * rewrite list_lookup_insert_eq by lia.
          case_decide; [|lia].
          specialize (Hall j). case_decide; [lia|].
          destruct (dst !! j) as [x|] eqn:Hx.
          -- by rewrite (list_lookup_total_correct _ _ _ Hall).
          -- apply lookup_ge_None in Hx. lia.
        * rewrite list_lookup_insert_ne by done.
          rewrite Hall. repeat case_decide; try done; lia. }
  destruct (for_loop _ _ _ _) as [d v].
  destruct HP as (Hlen & Hv & Hall). simpl in *. subst v. f_equal.
  apply list_eq. intros k. rewrite Hall, list_lookup_imap.
  case_decide as Hk.
  - by destruct (dst !! k).
  - rewrite lookup_ge_None_2 by lia. done.
Qed.

(** C4. With initial volume and step not both zero, the call over the
    80-sample buffers adds to destination sample [i] the product of the
    running volume's upper half and source sample [i], shifted right 16
    bits, where the running volume is the initial volume plus [i] steps on
    32 bits with wrap-around and no clamp (the sum is stored back as an
    [s16]); it returns the running volume after 80 steps. *)
Theorem AddBuffersWithVolumeRamp_ramp (dst src : list Z) (vol step : Z) :
  length dst = 80%nat -> length src = 80%nat ->
  is_s32 vol -> is_s32 step ->
  ~ (vol = 0 /\ step = 0) ->
  let '(dst', vol') := AddBuffersWithVolumeRamp 80 dst src vol step in
  length dst' = 80%nat
  /\ (forall i : nat, (i < 80)%nat ->
        dst' !!! i
        = s16 (dst !!! i
               + Z.shiftr (Z.shiftr (s32 (vol + Z.of_nat i * step)) 16
                           * (src !!! i)) 16))
  /\ vol' = s32 (vol + 80 * step).
Proof.
  intros Hdst Hsrc Hvol Hstep Hnz. unfold AddBuffersWithVolumeRamp.
  destruct ((vol =? 0) && (step =? 0)) eqn:Hz.
  { apply andb_true_iff in Hz as [?%Z.eqb_eq ?%Z.eqb_eq]. tauto. }
  pose proof (ramp_loop_spec dst src vol step Hvol) as Hloop.
  rewrite Hdst in Hloop.
  match goal with |- context [for_loop ?n 0 ?body ?st] =>
    replace (for_loop n 0 body st)
      with (imap (fun i d =>
              s16 (d + contribution (ramp_volume vol step i) (src !!! i)))
              dst, ramp_volume vol step 80)
      by (symmetry; exact Hloop)
  end.
  clear Hloop.
  split_and!.
  - by rewrite length_imap.
  - intros i Hi.
    destruct (lookup_lt_is_Some_2 dst i) as [x Hx]; [lia|].
    rewrite (list_lookup_total_correct dst i x Hx).
    apply list_lookup_total_correct.
    rewrite list_lookup_imap, Hx. done.
  - unfold ramp_volume. f_equal.
Qed.

Lemma AddBuffersWithVolumeRamp_ramp_witness :
  let '(dst', vol') :=
    AddBuffersWithVolumeRamp 80 (replicate 80 7) (replicate 80 0x4000)
      0x7FFF0000 0x00010000 in
  length dst' = 80%nat
  /\ (forall i : nat, (i < 80)%nat ->
        dst' !!! i
        = s16 (replicate 80 7 !!! i
               + Z.shiftr
                   (Z.shiftr (s32 (0x7FFF0000 + Z.of_nat i * 0x00010000)) 16
                    * (replicate 80 0x4000 !!! i)) 16))
  /\ vol' = s32 (0x7FFF0000 + 80 * 0x00010000).
Proof.
  apply (AddBuffersWithVolumeRamp_ramp (replicate 80 7)
           (replicate 80 0x4000) 0x7FFF0000 0x00010000).
  - reflexivity.
  - reflexivity.
  - unfold is_s32. lia.
  - unfold is_s32. lia.
  - lia.
Defined.

(** Two samples at the top of the ranges: the bus sample wraps on 16 bits
    and the running volume wraps on 32 bits. *)
Example AddBuffersWithVolumeRamp_wraps :
  AddBuffersWithVolumeRamp 2 [32767; 0] [0x7fff; 0x7fff] 0x7FFF0000 0x10000
  = ([-16386; -16384], -2147418112).
Proof. reflexivity. Qed.

(** The contribution of one sample lies in the 16-bit signed range. *)
Lemma contribution_range vol sample :
  is_s32 vol -> is_s16 sample -> is_s16 (contribution vol sample).
Proof.
  unfold is_s32, is_s16, contribution. intros Hv Hs.
  rewrite !Z.shiftr_div_pow2 by lia.
  assert (- 2 ^ 15 <= vol / 2 ^ 16 < 2 ^ 15) as Ha.
  { split; [apply Z.div_le_lower_bound | apply Z.div_lt_upper_bound]; lia. }
  set (a := vol / 2 ^ 16) in *.
  assert (- 2 ^ 30 <= a * sample <= 2 ^ 30) as Hp by nia.
  split; [apply Z.div_le_lower_bound | apply Z.div_lt_upper_bound]; lia.
Qed.

(** C5. Every contribution added to a bus is within [-32768, 32767], so
    clamping it to that range before the addition is what the code
    computes: the mixing step with the clamp written out and
    [AddBuffersWithVolumeRamp] give the same bus and the same returned
    volume, the latter being the unclamped, wrapped running volume. *)
Theorem AddBuffersWithVolumeRamp_contribution_clamped
    (N : nat) (dst src : list Z) (vol step : Z) :
  is_s32 vol -> Forall is_s16 src ->
  (forall i : nat,
     let c := contribution (ramp_volume vol step i) (src !!! i) in
     -32768 <= c <= 32767 /\ MathUtil.Clamp c (-32768) 32767 = c)
  /\ AddBuffersWithVolumeRamp_clamped N dst src vol step
     = AddBuffersWithVolumeRamp N dst src vol step.
Proof.
  intros Hvol Hsrc.
  assert (forall i : nat, is_s16 (src !!! i)) as Hsample.
  { intros i. destruct (src !! i) as [x|] eqn:Hx.
    - rewrite (list_lookup_total_correct _ _ _ Hx).
      eapply Forall_lookup_1; eauto.
    - rewrite list_lookup_total_alt, Hx. simpl. unfold is_s16. lia. }
  split.
  - intros i c.
    assert (is_s16 c) as Hc
      by (apply contribution_range; [apply s32_range | apply Hsample]).
    split; [unfold is_s16 in Hc; lia | by apply Clamp_id].
  - unfold AddBuffersWithVolumeRamp_clamped, AddBuffersWithVolumeRamp.
    destruct ((vol =? 0) && (step =? 0)); [done|].
    apply (for_loop_ext (fun st : list Z * Z => is_s32 st.2)); [done|].
    intros j [d v] Hv. simpl in *. split; [|apply s32_range].
    rewrite Clamp_id by (apply contribution_range; [done | apply Hsample]).
    done.
Qed.

Lemma AddBuffersWithVolumeRamp_contribution_clamped_witness :
  (forall i : nat,
     let c := contribution (ramp_volume (-0x80000000) 0x7FFFFFFF i)
                ([-32768; 32767] !!! i) in
     -32768 <= c <= 32767 /\ MathUtil.Clamp c (-32768) 32767 = c)
  /\ AddBuffersWithVolumeRamp_clamped 2 [32767; -32768] [-32768; 32767]
       (-0x80000000) 0x7FFFFFFF
     = AddBuffersWithVolumeRamp 2 [32767; -32768] [-32768; 32767]
         (-0x80000000) 0x7FFFFFFF.
Proof.
  apply (AddBuffersWithVolumeRamp_contribution_clamped 2
           [32767; -32768] [-32768; 32767] (-0x80000000) 0x7FFFFFFF).
  - unfold is_s32. lia.
  - repeat constructor; unfold is_s16; lia.
Defined.

End Renderer.

(** ** [ZeldaUCode]: the command buffer *)

Section CommandBuffer.

Import ZeldaUCode.

Lemma Read32_empty s :
  m_read_offset s = m_write_offset s ->
  Read32 s = (0, s, [underrun_entry]).
Proof.
  intros Heq. unfold Read32, mbind, M_bind, gets; simpl.
  rewrite Heq, Z.eqb_refl. reflexivity.
Qed.

Lemma Read32_pending s :
  m_read_offset s <> m_write_offset s ->
  Read32 s
  = (m_cmd_buffer s !!! Z.to_nat (m_read_offset s),
     set_m_read_offset (u32 (m_read_offset s + 1) mod cmd_buffer_size) s,
     []).
Proof.
  intros Hne. unfold Read32, mbind, M_bind, gets; simpl.
  apply Z.eqb_neq in Hne. rewrite Hne. reflexivity.
Qed.

Lemma Write32_run val s :
  Write32 val s
  = (tt,
     set_m_write_offset (u32 (m_write_offset s + 1) mod cmd_buffer_size)
       (set_m_cmd_buffer
          (<[Z.to_nat (m_write_offset s) := val]> (m_cmd_buffer s)) s),
     []).
Proof. reflexivity. Qed.

Lemma next_cursor c :
  0 <= c < 64 -> u32 (c + 1) mod cmd_buffer_size = (c + 1) mod 64.
Proof.
  intros Hc. unfold u32, cmd_buffer_size.
  rewrite (Z.mod_small (c + 1)) by lia. reflexivity.
Qed.

(** Both members keep the buffer at 64 words and the cursors below 64. *)
Lemma Write32_cmd_buffer_ok val s :
  cmd_buffer_ok s -> cmd_buffer_ok (Write32 val s).1.2.
Proof.
  intros (Hlen & Hr & Hw). rewrite Write32_run. unfold cmd_buffer_ok. simpl.
  rewrite length_insert. split_and!; try done; try lia.
  - apply Z.mod_pos_bound. done.
  - apply Z.mod_pos_bound. done.
Qed.

Lemma Read32_cmd_buffer_ok s :
  cmd_buffer_ok s -> cmd_buffer_ok (Read32 s).1.2.
Proof.
  intros (Hlen & Hr & Hw).
  destruct (decide (m_read_offset s = m_write_offset s)) as [Heq|Hne].
  - by rewrite Read32_empty.
  - rewrite Read32_pending by done. unfold cmd_buffer_ok. simpl.
    split_and!; try done; try lia.
    + apply Z.mod_pos_bound. done.
    + apply Z.mod_pos_bound. done.
Qed.

(** Two words written, three read: the third read finds the queue empty. *)
Example Write32_Read32_two_words :
  (Read32_times 3 (Write32_each [7; 8] (initial 0)).1.2).1.1 = [7; 8; 0].
Proof. reflexivity. Qed.

(** Writing a word appends it to the waiting words, while there is room. *)
Lemma Write32_holds s q val :
  holds s q -> (S (length q) < 64)%nat ->
  holds (Write32 val s).1.2 (q ++ [val])
  /\ m_read_offset (Write32 val s).1.2 = m_read_offset s
  /\ (Write32 val s).2 = [].
Proof.
  intros ((Hlen & Hr & Hw) & Hq & Hwq & Hall) Hroom.
  rewrite Write32_run; simpl. split_and!; [|done|done].
  unfold holds, cmd_buffer_ok; simpl.
  rewrite next_cursor by done. rewrite length_insert, length_app; simpl.
  split_and!; try done; try lia.
  - apply Z.mod_pos_bound. lia.
  - apply Z.mod_pos_bound. lia.
  - rewrite Hwq, Zplus_mod_idemp_l. f_equal. lia.
  - intros i x Hi.
    destruct (decide (i < length q)%nat) as [Hlt|Hge].
    + rewrite lookup_app_l in Hi by done.
      rewrite list_lookup_insert_ne; [by apply Hall|].
      rewrite Hwq. intros Heq. apply Z2Nat.inj in Heq.
      * revert Heq. Z.div_mod_to_equations. lia.
      * apply Z.mod_pos_bound. lia.
      * apply Z.mod_pos_bound. lia.
    + assert (i = length q) as ->.
      { apply lookup_lt_Some in Hi. rewrite length_app in Hi.
        simpl in Hi. lia. }
      rewrite list_lookup_middle in Hi by done. injection Hi as <-.
      rewrite Hwq. apply list_lookup_insert_eq.
      rewrite Hlen.
      pose proof (Z.mod_pos_bound (m_read_offset s + Z.of_nat (length q)) 64).
      lia.
Qed.

Lemma Write32_each_holds vals s q :
  holds s q -> (length q + length vals < 64)%nat ->
  holds (Write32_each vals s).1.2 (q ++ vals)
  /\ m_read_offset (Write32_each vals s).1.2 = m_read_offset s
  /\ (Write32_each vals s).2 = [].
Proof.
  revert s q. induction vals as [|val vals IH]; intros s q Hq Hroom.
  - simpl. rewrite app_nil_r. done.
  - simpl in Hroom.
    destruct (Write32_holds s q val Hq) as (H1 & Hr1 & Hl1); [lia|].
    change (Write32_each (val :: vals) s)
      with ((Write32 val ≫= fun _ => Write32_each vals) s).
    unfold mbind, M_bind.
    destruct (Write32 val s) as [[[] s1] l1]. simpl in H1, Hr1, Hl1.
    destruct (IH s1 (q ++ [val]) H1) as (H2 & Hr2 & Hl2).
    { rewrite length_app. simpl. lia. }
    destruct (Write32_each vals s1) as [[[] s2] l2]. simpl in *.
    subst. rewrite <- app_assoc in H2. simpl in H2. rewrite Hr2. done.
Qed.

(** Reading takes the oldest waiting word and logs nothing. *)
Lemma Read32_holds s x q :
  holds s (x :: q) ->
  (Read32 s).1.1 = x
  /\ holds (Read32 s).1.2 q
  /\ m_cmd_buffer (Read32 s).1.2 = m_cmd_buffer s
  /\ m_write_offset (Read32 s).1.2 = m_write_offset s
  /\ (Read32 s).2 = [].
Proof.
  intros ((Hlen & Hr & Hw) & Hq & Hwq & Hall). simpl in Hq, Hwq.
  rewrite Read32_pending.
  2: { rewrite Hwq. Z.div_mod_to_equations. lia. }
  simpl. rewrite next_cursor by done. split_and!; try done.
  - apply list_lookup_total_correct.
    specialize (Hall 0%nat x eq_refl). simpl in Hall.
    rewrite Z.add_0_r, Z.mod_small in Hall by done. done.
  - unfold holds, cmd_buffer_ok; simpl. split_and!; try done; try lia.
    + apply Z.mod_pos_bound. lia.
    + apply Z.mod_pos_bound. lia.
    + rewrite Hwq, Zplus_mod_idemp_l. f_equal. lia.
    + intros i y Hi. specialize (Hall (S i) y Hi).
      rewrite Zplus_mod_idemp_l.
      replace (m_read_offset s + 1 + Z.of_nat i)
        with (m_read_offset s + Z.of_nat (S i)) by lia.
      done.
Qed.

Lemma Read32_times_holds q s :
  holds s q ->
  (Read32_times (length q) s).1.1 = q
  /\ holds (Read32_times (length q) s).1.2 []
  /\ (Read32_times (length q) s).2 = [].
Proof.
  revert s. induction q as [|x q IH]; intros s Hq; [done|].
  destruct (Read32_holds s x q Hq) as (Hx & H1 & _ & _ & Hl1).
  change (Read32_times (length (x :: q)) s)
    with ((Read32 ≫= fun res =>
             Read32_times (length q) ≫= fun rest => mret (res :: rest)) s).
  unfold mbind, M_bind, mret, M_ret.
  destruct (Read32 s) as [[x' s1] l1]. simpl in Hx, H1, Hl1.
  destruct (IH s1 H1) as (Hout & H2 & Hl2).
  destruct (Read32_times (length q) s1) as [[out s2] l2]. simpl in *.
  subst. done.
Qed.

Lemma holds_nil s :
  cmd_buffer_ok s -> m_read_offset s = m_write_offset s -> holds s [].
Proof.
  intros Hok Heq. pose proof Hok as (Hlen & Hr & Hw).
  unfold holds. split_and!; try done; simpl; try lia.
  rewrite Z.add_0_r, Z.mod_small by done. done.
Qed.

(** C1 (amended to fewer than 64 words). Starting from equal cursors,
    [Write32] of [k < 64] words followed by [k] calls of [Read32] returns
    the words in the order written, and one more [Read32] returns 0 and
    leaves the buffer and both cursors unchanged. *)
Theorem Write32_Read32_fifo (s : ZeldaUCode.t) (vals : list Z) :
  cmd_buffer_ok s ->
  m_read_offset s = m_write_offset s ->
  (length vals < 64)%nat ->
  fifo_round_trip s vals.
Proof.
  intros Hok Heq Hk. unfold fifo_round_trip.
  destruct (Write32_each_holds vals s [] (holds_nil s Hok Heq))
    as (H1 & _ & _); [simpl; lia|]. simpl in H1.
  destruct (Write32_each vals s) as [[[] s1] l1]. simpl in H1.
  destruct (Read32_times_holds vals s1 H1) as (Hout & H2 & _).
  destruct (Read32_times (length vals) s1) as [[out s2] l2]. simpl in *.
  destruct H2 as ((_ & Hr & _) & _ & Hw & _). simpl in Hw.
  rewrite Z.add_0_r, Z.mod_small in Hw by done.
  rewrite Read32_empty by done. done.
Qed.

Lemma Write32_Read32_fifo_witness :
  fifo_round_trip (initial 0) [0xCAFE; 0; 0xFFFFFFFF].
Proof.
  apply (Write32_Read32_fifo (initial 0) [0xCAFE; 0; 0xFFFFFFFF]).
  - unfold cmd_buffer_ok. simpl. split; [reflexivity | lia].
  - reflexivity.
  - simpl. lia.
Defined.

(** C1 as stated fails for 64 words: the write cursor has come round to
    the read cursor, so the first [Read32] already answers 0. *)
Lemma Write32_Read32_fifo_fails_at_64 :
  ~ fifo_round_trip (initial 0) (Z.of_nat <$> seq 1 64).
Proof. vm_compute. intros [H _]. discriminate H. Qed.

(** C2. [Read32] on a queue whose cursors are equal logs the condition,
    returns 0 and leaves the whole object, hence the buffer, both cursors
    and the mail state, unchanged. *)
Theorem Read32_underrun (s : ZeldaUCode.t) :
  m_read_offset s = m_write_offset s ->
  let '(res, s', log) := Read32 s in
  res = 0
  /\ log = [Log.Build Log.LERROR Log.DSPHLE
              "Reading too many command params" []]
  /\ s' = s
  /\ m_cmd_buffer s' = m_cmd_buffer s
  /\ m_read_offset s' = m_read_offset s
  /\ m_write_offset s' = m_write_offset s
  /\ m_mail_current_state s' = m_mail_current_state s.
Proof. intros Heq. rewrite Read32_empty by done. done. Qed.

Lemma Read32_underrun_witness :
  let '(res, s', log) := Read32 (initial 0) in
  res = 0
  /\ log = [Log.Build Log.LERROR Log.DSPHLE
              "Reading too many command params" []]
  /\ s' = initial 0
  /\ m_cmd_buffer s' = m_cmd_buffer (initial 0)
  /\ m_read_offset s' = m_read_offset (initial 0)
  /\ m_write_offset s' = m_write_offset (initial 0)
  /\ m_mail_current_state s' = m_mail_current_state (initial 0).
Proof. apply (Read32_underrun (initial 0)). reflexivity. Defined.

End CommandBuffer.

(** ** [PulseAudio]: latency after underflows *)

Section Underflow.

Import PulseAudio.

Lemma BUFFER_SIZE_bytes : BUFFER_SIZE = 2048.
Proof. reflexivity. Qed.

Lemma u32_add_l x y : u32 (u32 x + y) = u32 (x + y).
Proof. unfold u32. apply Zplus_mod_idemp_l. Qed.

(** After [n] underflows the latency is the first one plus [n] times
    [BUFFER_SIZE], reduced modulo [2^32]; nothing else has changed. *)
Lemma underflows_tlength n p :
  is_u32 (tlength (m_pa_ba p)) ->
  underflows n p
  = set_m_pa_ba
      (set_tlength (u32 (tlength (m_pa_ba p) + Z.of_nat n * BUFFER_SIZE))
         (m_pa_ba p)) p.
Proof.
  revert p. induction n as [|n IH]; intros p Hp.
  - simpl. rewrite Z.add_0_r. unfold u32, is_u32 in *.
    rewrite Z.mod_small by done. by destruct p as [? ? []].
  - simpl underflows. rewrite IH.
    + destruct p as [e c [ml tl pb mr fs]]. simpl.
      unfold set_m_pa_ba, set_tlength. simpl. do 2 f_equal.
      rewrite u32_add_l. f_equal. lia.
    + simpl. unfold u32, is_u32. apply Z.mod_pos_bound. lia.
Qed.

(** C10 (amended to latencies that stay below [2^32]). An underflow adds
    [BUFFER_SIZE] = 2048 bytes (512 frames of two 16-bit channels) to the
    requested latency [tlength], which strictly grows, asks the server for
    the new attributes and leaves the other attributes alone; there is no
    cap short of the 32-bit range of the field. *)
Theorem UnderflowCallback_raises_latency (p : PulseAudio.t) :
  0 <= tlength (m_pa_ba p) ->
  tlength (m_pa_ba p) + BUFFER_SIZE < 2 ^ 32 ->
  let '(p', effects) := UnderflowCallback p in
  BUFFER_SIZE = 512 * 2 * 2
  /\ tlength (m_pa_ba p') = tlength (m_pa_ba p) + 2048
  /\ tlength (m_pa_ba p) < tlength (m_pa_ba p')
  /\ m_pa_ba p' = set_tlength (tlength (m_pa_ba p) + 2048) (m_pa_ba p)
  /\ effects
     = [pa_stream_set_buffer_attr (m_pa_ba p');
        WARN_LOG Log.AUDIO "pulseaudio underflow, new latency: %d bytes"
          (tlength (m_pa_ba p) + 2048)].
Proof.
  intros H0 Hfit. unfold UnderflowCallback. simpl.
  rewrite BUFFER_SIZE_bytes in *.
  assert (u32 (tlength (m_pa_ba p) + 2048)
          = tlength (m_pa_ba p) + 2048) as ->.
  { unfold u32. apply Z.mod_small. lia. }
  split_and!; try done. lia.
Qed.

Lemma UnderflowCallback_raises_latency_witness :
  let '(p', effects) := UnderflowCallback connected in
  BUFFER_SIZE = 512 * 2 * 2
  /\ tlength (m_pa_ba p') = tlength (m_pa_ba connected) + 2048
  /\ tlength (m_pa_ba connected) < tlength (m_pa_ba p')
  /\ m_pa_ba p'
     = set_tlength (tlength (m_pa_ba connected) + 2048) (m_pa_ba connected)
  /\ effects
     = [pa_stream_set_buffer_attr (m_pa_ba p');
        WARN_LOG Log.AUDIO "pulseaudio underflow, new latency: %d bytes"
          (tlength (m_pa_ba connected) + 2048)].
Proof.
  apply (UnderflowCallback_raises_latency connected).
  - vm_compute. discriminate.
  - vm_compute. reflexivity.
Defined.

(** C10 as stated fails once the latency has reached [2^32 - 2048]: the
    object is the one 2097150 underflows after [PulseInit] lead to, and the
    next underflow takes its latency to 0. *)
Lemma UnderflowCallback_latency_wraps :
  let p := Build 0 1
             (BuildAttr 0xFFFFFFFF 0xFFFFF800
                0xFFFFFFFF 0xFFFFFFFF 0xFFFFFFFF) in
  underflows (Z.to_nat 2097150) connected = p
  /\ tlength (m_pa_ba (UnderflowCallback p).1) = 0
  /\ ~ latency_raised p.
Proof.
  split_and!.
  - rewrite underflows_tlength by (vm_compute; split; [discriminate | done]).
    rewrite Z2Nat.id by lia. vm_compute. reflexivity.
  - vm_compute. reflexivity.
  - vm_compute. discriminate.
Qed.

End Underflow.

(** ** [ZeldaUCode]: multi-word commands *)

Section MultiWordCommands.

Import ZeldaUCode.

Variable classify : Z -> MailKind.
Variable run_immediate : Z -> M unit.
Variable sync_mail : Z -> M unit.

Lemma HandleMail_opcode s mail params :
  m_mail_current_state s = WAITING ->
  classify mail = MultiWord params ->
  HandleMail classify run_immediate sync_mail mail s
  = (tt,
     set_m_mail_current_state WRITING_CMD
       (set_m_mail_expected_cmd_mails params (Write32 mail s).1.2),
     []).
Proof.
  intros Hst Hop. unfold HandleMail, mbind, M_bind, gets; simpl.
  rewrite Hst, Hop. reflexivity.
Qed.

Lemma HandleMail_parameter s mail :
  m_mail_current_state s = WRITING_CMD ->
  classify mail = Unrecognized ->
  u32 (m_mail_expected_cmd_mails s - 1) <> 0 ->
  HandleMail classify run_immediate sync_mail mail s
  = (tt,
     set_m_mail_expected_cmd_mails (u32 (m_mail_expected_cmd_mails s - 1))
       (Write32 mail s).1.2,
     []).
Proof.
  intros Hst Hp Hn. unfold HandleMail, mbind, M_bind, gets; simpl.
  rewrite Hst, Hp. simpl. apply Z.eqb_neq in Hn. rewrite Hn. reflexivity.
Qed.

Lemma HandleMail_last_parameter s mail :
  m_mail_current_state s = WRITING_CMD ->
  classify mail = Unrecognized ->
  u32 (m_mail_expected_cmd_mails s - 1) = 0 ->
  HandleMail classify run_immediate sync_mail mail s
  = (tt,
     set_m_mail_current_state WAITING
       (set_m_pending_commands_count (u32 (m_pending_commands_count s + 1))
          (set_m_mail_expected_cmd_mails 0 (Write32 mail s).1.2)),
     []).
Proof.
  intros Hst Hp Hn. unfold HandleMail, mbind, M_bind, gets; simpl.
  rewrite Hst, Hp. simpl. rewrite Hn. reflexivity.
Qed.

Lemma HandleMail_opcode_while_writing s mail :
  m_mail_current_state s = WRITING_CMD ->
  classify mail <> Unrecognized ->
  HandleMail classify run_immediate sync_mail mail s
  = (tt, set_m_mail_current_state HALTED s, []).
Proof.
  intros Hst Hop. unfold HandleMail, mbind, M_bind, gets; simpl.
  rewrite Hst. by destruct (classify mail).
Qed.

Lemma HandleMail_each_snoc mails mail s :
  HandleMail_each classify run_immediate sync_mail (mails ++ [mail]) s
  = (let '(_, s1, l1) :=
       HandleMail_each classify run_immediate sync_mail mails s in
     let '(_, s2, l2) :=
       HandleMail classify run_immediate sync_mail mail s1 in
     (tt, s2, l1 ++ l2)).
Proof.
  revert s. induction mails as [|m mails IH]; intros s.
  - simpl. unfold mbind, M_bind, mret, M_ret.
    destruct (HandleMail _ _ _ mail s) as [[[] s2] l2].
    by rewrite app_nil_r.
  - change (HandleMail_each classify run_immediate sync_mail
              ((m :: mails) ++ [mail]) s)
      with ((HandleMail classify run_immediate sync_mail m ≫= fun _ =>
               HandleMail_each classify run_immediate sync_mail
                 (mails ++ [mail])) s).
    change (HandleMail_each classify run_immediate sync_mail (m :: mails) s)
      with ((HandleMail classify run_immediate sync_mail m ≫= fun _ =>
               HandleMail_each classify run_immediate sync_mail mails) s).
    unfold mbind, M_bind.
    destruct (HandleMail _ _ _ m s) as [[[] s0] l0]. rewrite IH.
    destruct (HandleMail_each _ _ _ mails s0) as [[[] s1] l1].
    destruct (HandleMail _ _ _ mail s1) as [[[] s2] l2].
    by rewrite app_assoc.
Qed.

(** The opcode of a command with 3 parameters and two parameter mails
    leave the state machine in WRITING_CMD, one word still expected. *)
Lemma HandleMail_two_of_three s op p1 p2 :
  m_mail_current_state s = WAITING ->
  classify op = MultiWord 3 ->
  classify p1 = Unrecognized -> classify p2 = Unrecognized ->
  let s3 :=
    (HandleMail_each classify run_immediate sync_mail [op; p1; p2] s).1.2 in
  m_mail_current_state s3 = WRITING_CMD
  /\ m_mail_expected_cmd_mails s3 = 1
  /\ m_pending_commands_count s3 = m_pending_commands_count s.
Proof.
  intros Hst Hop Hp1 Hp2. cbv zeta.
  unfold HandleMail_each, mbind, M_bind.
  rewrite (HandleMail_opcode s op 3 Hst Hop).
  rewrite HandleMail_parameter by (simpl; done).
  rewrite HandleMail_parameter by (simpl; done).
  simpl. done.
Qed.

(** C8. After the opcode of a command that expects 3 parameter mails and
    two parameter mails, a mail that carries an opcode, a different one in
    particular, takes the state machine from WRITING_CMD to HALTED; the
    mail is not accepted as the missing parameter: the command buffer, its
    write cursor, the count of expected mails and the count of pending
    commands are as the two parameter mails left them. *)
Theorem HandleMail_interrupted_command_halts (s : ZeldaUCode.t)
    (op p1 p2 op' : Z) :
  m_mail_current_state s = WAITING ->
  classify op = MultiWord 3 ->
  classify p1 = Unrecognized -> classify p2 = Unrecognized ->
  classify op' <> Unrecognized ->
  halts_on_interrupted_command classify run_immediate sync_mail s
    op p1 p2 op'
  /\ (let s3 :=
        (HandleMail_each classify run_immediate sync_mail
           [op; p1; p2] s).1.2 in
      let s4 :=
        (HandleMail_each classify run_immediate sync_mail
           [op; p1; p2; op'] s).1.2 in
      m_mail_current_state s3 = WRITING_CMD
      /\ m_mail_current_state s4 = HALTED
      /\ m_cmd_buffer s4 = m_cmd_buffer s3
      /\ m_write_offset s4 = m_write_offset s3
      /\ m_mail_expected_cmd_mails s4 = 1
      /\ m_pending_commands_count s4 = m_pending_commands_count s).
Proof.
  intros Hst Hop Hp1 Hp2 Hop'.
  destruct (HandleMail_two_of_three s op p1 p2 Hst Hop Hp1 Hp2)
    as (Hst3 & Hexp3 & Hpend3).
  unfold halts_on_interrupted_command.
  change [op; p1; p2; op'] with ([op; p1; p2] ++ [op']).
  rewrite HandleMail_each_snoc.
  destruct (HandleMail_each classify run_immediate sync_mail [op; p1; p2] s)
    as [[[] s3] l3]. simpl in Hst3, Hexp3, Hpend3.
  rewrite (HandleMail_opcode_while_writing s3 op' Hst3 Hop').
  simpl. split_and!; done.
Qed.

End MultiWordCommands.

Section MultiWordCommandsExamples.

Import ZeldaUCode.

(** Opcode 1 expects three parameters; two arrive, then opcode 2. *)
Lemma HandleMail_interrupted_command_halts_witness :
  halts_on_interrupted_command two_commands
    (fun _ => mret tt) (fun _ => mret tt) (initial 0) 1 0xAA 0xBB 2
  /\ (let s3 :=
        (HandleMail_each two_commands (fun _ => mret tt) (fun _ => mret tt)
           [1; 0xAA; 0xBB] (initial 0)).1.2 in
      let s4 :=
        (HandleMail_each two_commands (fun _ => mret tt) (fun _ => mret tt)
           [1; 0xAA; 0xBB; 2] (initial 0)).1.2 in
      m_mail_current_state s3 = WRITING_CMD
      /\ m_mail_current_state s4 = HALTED
      /\ m_cmd_buffer s4 = m_cmd_buffer s3
      /\ m_write_offset s4 = m_write_offset s3
      /\ m_mail_expected_cmd_mails s4 = 1
      /\ m_pending_commands_count s4
         = m_pending_commands_count (initial 0)).
Proof.
  apply (HandleMail_interrupted_command_halts two_commands
           (fun _ => mret tt) (fun _ => mret tt) (initial 0) 1 0xAA 0xBB 2).
  - reflexivity.
  - reflexivity.
  - reflexivity.
  - reflexivity.
  - discriminate.
Defined.

(** The three parameters complete, the command counts as queued and the
    state machine is back in WAITING. *)
Example HandleMail_complete_command :
  let s' :=
    (HandleMail_each two_commands (fun _ => mret tt) (fun _ => mret tt)
       [1; 0xAA; 0xBB; 0xCC] (initial 0)).1.2 in
  m_mail_current_state s' = WAITING
  /\ m_pending_commands_count s' = 1
  /\ take 4 (m_cmd_buffer s') = [1; 0xAA; 0xBB; 0xCC].
Proof. vm_compute. done. Qed.

End MultiWordCommandsExamples.

(** ** [ZeldaAudioRenderer]: end of a sample without looping *)

Section EndOfSample.

Import ZeldaAudioRenderer.

Lemma set_read_offset_same vpb : set_read_offset (read_offset vpb) vpb = vpb.
Proof. by destruct vpb. Qed.

(** Without looping, [download] copies what is left of the source and
    fills up with zeros; the read offset stops at the sample count. *)
Lemma download_no_loop sample loop_target (n r : nat) vpb :
  loop_enabled vpb = false ->
  read_offset vpb + Z.of_nat r = sample_count vpb ->
  (r <= n)%nat ->
  download sample loop_target n vpb
  = (((fun i : nat => sample (read_offset vpb + Z.of_nat i)) <$> seq 0 r)
       ++ replicate (n - r) 0,
     set_read_offset (sample_count vpb) vpb).
Proof.
  revert r vpb. induction n as [|n IH]; intros r vpb Hloop Hr Hrn.
  - assert (r = 0%nat) as -> by lia. simpl.
    rewrite <- Hr, Z.add_0_r. by rewrite set_read_offset_same.
  - simpl download. rewrite Hloop, andb_false_r.
    destruct r as [|r].
    + assert (read_offset vpb = sample_count vpb) as Heq by lia.
      rewrite <- Heq, Z.ltb_irrefl, set_read_offset_same. done.
    + assert ((read_offset vpb <? sample_count vpb) = true) as ->
        by (apply Z.ltb_lt; lia).
      rewrite (IH r) by (simpl; try done; lia).
      simpl. rewrite Z.add_0_r. do 2 f_equal.
      rewrite <- fmap_S_seq, <- list_fmap_compose. f_equal.
      apply list_fmap_ext. intros i x _. simpl. f_equal. lia.
Qed.

Variable mram_s16 : Z -> Z.
Variable aram_u8 : Z -> Z.
Variable afc_sample : VPB -> Z -> Z.
Variable afc_block_samples : Z.

(** C7. A voice with looping disabled whose read offset reaches the
    sample count after [r] of the [n] requested samples, [r < n], gets
    zeros for the remaining [n - r] samples, whatever the encoding and
    whatever memory holds past the end; the samples before are those of
    the source, and the read offset stays at the sample count instead of
    going back to the loop point. *)
Theorem LoadRawSamples_silence_at_end (vpb : VPB) (n r : nat) :
  loop_enabled vpb = false ->
  read_offset vpb + Z.of_nat r = sample_count vpb ->
  (r < n)%nat ->
  let '(out, vpb') :=
    LoadRawSamples mram_s16 aram_u8 afc_sample afc_block_samples n vpb in
  length out = n
  /\ drop r out = replicate (n - r) 0
  /\ (forall i : nat, (r <= i < n)%nat -> out !! i = Some 0)
  /\ take r out
     = (LoadRawSamples mram_s16 aram_u8 afc_sample afc_block_samples r vpb).1
  /\ read_offset vpb' = sample_count vpb.
Proof.
  intros Hloop Hr Hrn.
  unfold LoadRawSamples, DownloadRawSamplesFromMRAM,
    DownloadPCM8SamplesFromARAM, DownloadAFCSamplesFromARAM.
  destruct (encoding vpb);
    rewrite (download_no_loop _ _ n r vpb Hloop Hr) by lia;
    rewrite (download_no_loop _ _ r r vpb Hloop Hr) by lia;
    simpl; rewrite Nat.sub_diag; simpl; rewrite app_nil_r.
  all: split_and!; try done.
  all: try (rewrite length_app, length_fmap, length_seq, length_replicate;
            lia).
  all: try (rewrite drop_app_length'; [done|];
            by rewrite length_fmap, length_seq).
  all: try (rewrite take_app_length'; [done|];
            by rewrite length_fmap, length_seq).
  all: intros i Hi;
    rewrite lookup_app_r by (rewrite length_fmap, length_seq; lia);
    apply lookup_replicate_2;
    rewrite length_fmap, length_seq; lia.
Qed.

End EndOfSample.

Section EndOfSampleExample.

Import ZeldaAudioRenderer.

(** A looping voice three samples before its end, asked for five samples,
    goes back to the loop point. *)
Example LoadRawSamples_looping :
  (LoadRawSamples (fun addr => addr) (fun _ => 0) (fun _ _ => 0) 16 5
     (BuildVPB PCM16 0x1000 7 2 true 10 0x10000 0 [])).1
  = [4110; 4112; 4114; 4100; 4102].
Proof. reflexivity. Qed.

(** A PCM16 voice three samples before its end, asked for five samples;
    main memory holds a non-zero sample at every address. *)
Lemma LoadRawSamples_silence_at_end_witness :
  let vpb := BuildVPB PCM16 0x1000 7 2 false 10 0x10000 0 [] in
  let '(out, vpb') :=
    LoadRawSamples (fun addr => addr) (fun _ => 0) (fun _ _ => 0) 16 5 vpb in
  length out = 5%nat
  /\ drop 3 out = replicate (5 - 3) 0
  /\ (forall i : nat, (3 <= i < 5)%nat -> out !! i = Some 0)
  /\ take 3 out
     = (LoadRawSamples (fun addr => addr) (fun _ => 0) (fun _ _ => 0) 16
          3 vpb).1
  /\ read_offset vpb' = sample_count vpb.
Proof.
  apply (LoadRawSamples_silence_at_end (fun addr => addr) (fun _ => 0)
           (fun _ _ => 0) 16
           (BuildVPB PCM16 0x1000 7 2 false 10 0x10000 0 []) 5 3).
  - reflexivity.
  - reflexivity.
  - lia.
Defined.

End EndOfSampleExample.

(** ** Snapshots: what is written is what is read back *)

Section Codecs.

Import PointerWrap.

Lemma get_put_le n x rest :
  0 <= x < 256 ^ Z.of_nat n ->
  get_le n (put_le n x ++ rest) = Some (x, rest).
Proof.
  revert x. induction n as [|n IH]; intros x Hx.
  - simpl in *. f_equal. f_equal. lia.
  - rewrite Nat2Z.inj_succ, Z.pow_succ_r in Hx by lia.
    simpl. rewrite IH.
    + do 2 f_equal. pose proof (Z.div_mod x 256). lia.
    + split; [apply Z.div_pos; lia | apply Z.div_lt_upper_bound; lia].
Qed.

Lemma u32_codec_ok : codec_ok u32_codec.
Proof. intros x rest Hx. apply (get_put_le 4). exact Hx. Qed.

Lemma u16_codec_ok : codec_ok u16_codec.
Proof. intros x rest Hx. apply (get_put_le 2). exact Hx. Qed.

Lemma s16_u16 x : is_s16 x -> s16 (u16 x) = x.
Proof.
  unfold is_s16, s16, u16. intros Hx.
  rewrite Zplus_mod_idemp_l. rewrite Z.mod_small; lia.
Qed.

Lemma s16_codec_ok : codec_ok s16_codec.
Proof.
  intros x rest Hx. unfold s16_codec, get, put.
  rewrite (get_put_le 2).
  - by rewrite s16_u16.
  - unfold u16. apply (Z.mod_pos_bound x (2 ^ 16)). lia.
Qed.

Lemma bool_codec_ok : codec_ok bool_codec.
Proof. intros [] rest _; reflexivity. Qed.

Lemma MailState_codec_ok : codec_ok ZeldaUCode.MailState_codec.
Proof.
  intros state rest _. unfold ZeldaUCode.MailState_codec, get, put.
  rewrite (get_put_le 4) by (destruct state; simpl; lia).
  by destruct state.
Qed.

Lemma array_codec_ok {A : Type} (n : nat) (c : Codec A) :
  codec_ok c -> codec_ok (array_codec n c).
Proof.
  intros Hc l rest [Hlen Hall]. unfold array_codec, get, put. subst n.
  induction Hall as [|x l Hx Hall IH]; [done|].
  simpl. rewrite <- app_assoc. rewrite (Hc x _ Hx).
  fold (get c). rewrite IH. done.
Qed.

(** [p.Do(x)] in the two directions. *)
Lemma Do_write {A : Type} (c : Codec A) (x : A) (bytes : list Z) :
  Do c x (Build MODE_WRITE bytes)
  = Some (x, Build MODE_WRITE (bytes ++ put c x)).
Proof. reflexivity. Qed.

Lemma Do_read {A : Type} (c : Codec A) (x y : A) (rest : list Z) :
  codec_ok c -> valid c x ->
  Do c y (Build MODE_READ (put c x ++ rest)) = Some (x, Build MODE_READ rest).
Proof. intros Hc Hx. unfold Do. simpl. by rewrite (Hc x rest Hx). Qed.

End Codecs.

Create HintDb codec.

#[local] Hint Resolve u32_codec_ok u16_codec_ok s16_codec_ok bool_codec_ok
  MailState_codec_ok array_codec_ok : codec.

(** One [Do] of a [DoState] in read mode, the stream being in normal form. *)
Ltac read_member :=
  rewrite Do_read by first [ assumption | exact I | by auto with codec ];
  cbv beta iota.

Section Snapshots.

Lemma renderer_DoState_write (r : ZeldaAudioRenderer.t) (bytes : list Z) :
  ZeldaAudioRenderer.DoState r
    (PointerWrap.Build PointerWrap.MODE_WRITE bytes)
  = Some (r, PointerWrap.Build PointerWrap.MODE_WRITE
               (bytes ++ ZeldaAudioRenderer.snapshot_bytes r)).
Proof.
  unfold ZeldaAudioRenderer.DoState, ZeldaAudioRenderer.snapshot_bytes,
    mbind, PointerWrap.P_bind, mret, PointerWrap.P_ret.
  repeat (rewrite Do_write; cbv beta iota).
  rewrite <- !app_assoc. by destruct r.
Qed.

Lemma renderer_DoState_read (r into : ZeldaAudioRenderer.t)
    (rest : list Z) :
  ZeldaAudioRenderer.well_formed r ->
  ZeldaAudioRenderer.DoState into
    (PointerWrap.Build PointerWrap.MODE_READ
       (ZeldaAudioRenderer.snapshot_bytes r ++ rest))
  = Some (r, PointerWrap.Build PointerWrap.MODE_READ rest).
Proof.
  intros (? & ? & ? & ? & ? & ? & ? & ? & ? & ? & ? & ? & ? & ? & ?).
  unfold ZeldaAudioRenderer.DoState, ZeldaAudioRenderer.snapshot_bytes,
    mbind, PointerWrap.P_bind, mret, PointerWrap.P_ret.
  rewrite <- !app_assoc.
  unfold ZeldaAudioRenderer.mixing_buffer_codec,
    ZeldaAudioRenderer.sine_table_codec,
    ZeldaAudioRenderer.resampling_coeffs_codec,
    ZeldaAudioRenderer.afc_coeffs_codec in *.
  do 16 read_member. by destruct r.
Qed.

Lemma ucode_DoState_write (s : ZeldaUCode.t) (bytes : list Z) :
  ZeldaUCode.DoState s (PointerWrap.Build PointerWrap.MODE_WRITE bytes)
  = Some (s, PointerWrap.Build PointerWrap.MODE_WRITE
               (bytes ++ ZeldaUCode.snapshot_bytes s)).
Proof.
  unfold ZeldaUCode.DoState, ZeldaUCode.snapshot_bytes,
    mbind, PointerWrap.P_bind, mret, PointerWrap.P_ret.
  repeat (rewrite Do_write; cbv beta iota).
  rewrite renderer_DoState_write.
  rewrite <- !app_assoc. by destruct s.
Qed.

Lemma ucode_DoState_read (s into : ZeldaUCode.t) (rest : list Z) :
  ZeldaUCode.well_formed s ->
  ZeldaUCode.DoState into
    (PointerWrap.Build PointerWrap.MODE_READ
       (ZeldaUCode.snapshot_bytes s ++ rest))
  = Some (s, PointerWrap.Build PointerWrap.MODE_READ rest).
Proof.
  intros (? & ? & ? & ? & ? & ? & ? & ? & ? & ? & ? & ?).
  unfold ZeldaUCode.DoState, ZeldaUCode.snapshot_bytes,
    mbind, PointerWrap.P_bind, mret, PointerWrap.P_ret.
  rewrite <- !app_assoc.
  unfold ZeldaUCode.skip_flags_codec, ZeldaUCode.cmd_buffer_codec in *.
  do 13 read_member.
  rewrite renderer_DoState_read by done. by destruct s.
Qed.

(** C9. A snapshot of the whole object (mailbox state, command buffer
    with cursors, rendering progress, sync and skip flags, renderer
    members) succeeds, and restoring it into any object gives back the
    object saved: whatever the behaviour on the subsequent mails is as a
    function of the object (acknowledgments sent, samples written, for the
    same guest memory), it is that of the run without the snapshot. *)
Theorem DoState_round_trip (s into : ZeldaUCode.t) :
  ZeldaUCode.well_formed s ->
  exists bytes : list Z,
    ZeldaUCode.save s = Some bytes
    /\ ZeldaUCode.restore into bytes = Some s
    /\ (forall (classify : Z -> ZeldaUCode.MailKind)
          (run_immediate sync_mail : Z -> ZeldaUCode.M unit)
          (mails : list Z),
          ZeldaUCode.HandleMail_each classify run_immediate sync_mail mails
            <$> ZeldaUCode.restore into bytes
          = Some (ZeldaUCode.HandleMail_each classify run_immediate
                    sync_mail mails s))
    /\ (forall (Obs : Type) (behaviour : ZeldaUCode.t -> list Z -> Obs)
          (mails : list Z),
          (fun s' => behaviour s' mails) <$> ZeldaUCode.restore into bytes
          = Some (behaviour s mails)).
Proof.
  intros Hs. exists (ZeldaUCode.snapshot_bytes s).
  assert (ZeldaUCode.restore into (ZeldaUCode.snapshot_bytes s) = Some s)
    as Hrestore.
  { unfold ZeldaUCode.restore.
    rewrite <- (app_nil_r (ZeldaUCode.snapshot_bytes s)).
    by rewrite ucode_DoState_read. }
  split_and!.
  - unfold ZeldaUCode.save. by rewrite ucode_DoState_write.
  - done.
  - intros. by rewrite Hrestore.
  - intros. by rewrite Hrestore.
Qed.

Lemma zeros_valid (n : nat) (c : PointerWrap.Codec Z) :
  PointerWrap.valid c 0 ->
  PointerWrap.valid (PointerWrap.array_codec n c) (ZeldaUCode.zeros n).
Proof.
  intros H0. split.
  - apply length_replicate.
  - by apply Forall_replicate.
Qed.

Lemma renderer_initial_well_formed vpb_base_addr :
  is_u32 vpb_base_addr ->
  ZeldaAudioRenderer.well_formed (ZeldaUCode.renderer_initial vpb_base_addr).
Proof.
  intros Hbase. unfold ZeldaAudioRenderer.well_formed.
  split_and!;
    lazymatch goal with
    | |- PointerWrap.valid _ _ =>
        apply (zeros_valid _ PointerWrap.s16_codec);
        change (is_s16 0); unfold is_s16; lia
    | |- is_u32 (ZeldaAudioRenderer.m_vpb_base_addr _) => exact Hbase
    | |- _ => unfold is_u32, is_u16; simpl; lia
    end.
Qed.

Lemma initial_well_formed vpb_base_addr :
  is_u32 vpb_base_addr ->
  ZeldaUCode.well_formed (ZeldaUCode.initial vpb_base_addr).
Proof.
  intros Hbase. unfold ZeldaUCode.well_formed.
  split_and!;
    lazymatch goal with
    | |- PointerWrap.valid _ _ =>
        apply (zeros_valid _ PointerWrap.u32_codec);
        change (is_u32 0); unfold is_u32; lia
    | |- ZeldaAudioRenderer.well_formed _ =>
        by apply renderer_initial_well_formed
    | |- _ => unfold is_u32, is_u16; simpl; lia
    end.
Qed.

Lemma DoState_round_trip_witness :
  exists bytes : list Z,
    ZeldaUCode.save (ZeldaUCode.initial 0x80000000) = Some bytes
    /\ ZeldaUCode.restore (ZeldaUCode.initial 0) bytes
       = Some (ZeldaUCode.initial 0x80000000)
    /\ (forall (classify : Z -> ZeldaUCode.MailKind)
          (run_immediate sync_mail : Z -> ZeldaUCode.M unit)
          (mails : list Z),
          ZeldaUCode.HandleMail_each classify run_immediate sync_mail mails
            <$> ZeldaUCode.restore (ZeldaUCode.initial 0) bytes
          = Some (ZeldaUCode.HandleMail_each classify run_immediate
                    sync_mail mails (ZeldaUCode.initial 0x80000000)))
    /\ (forall (Obs : Type) (behaviour : ZeldaUCode.t -> list Z -> Obs)
          (mails : list Z),
          (fun s' => behaviour s' mails)
            <$> ZeldaUCode.restore (ZeldaUCode.initial 0) bytes
          = Some (behaviour (ZeldaUCode.initial 0x80000000) mails)).
Proof.
  apply (DoState_round_trip (ZeldaUCode.initial 0x80000000)
           (ZeldaUCode.initial 0)).
  apply initial_well_formed. unfold is_u32. lia.
Defined.

End Snapshots.

(** * Further properties of the code *)

(** ** [ApplyVolumeInPlace]: gain *)

Section Gain.

Import ZeldaAudioRenderer.

(** The loop as a map, for any buffer and volume. *)
Lemma ApplyVolumeInPlace_fmap B (buf : list Z) vol :
  ApplyVolumeInPlace (length buf) B buf vol
  = (fun x =>
       s16 (MathUtil.Clamp (Z.shiftr (s32 (u32 (u32 x * u32 vol))) (16 - B))
              (-0x8000) 0x7fff)) <$> buf.
Proof.
  unfold ApplyVolumeInPlace.
  apply (for_loop_map (fun x =>
    s16 (MathUtil.Clamp (Z.shiftr (s32 (u32 (u32 x * u32 vol))) (16 - B))
           (-0x8000) 0x7fff))).
Qed.

Lemma fmap_id_on (P : Z -> Prop) (f : Z -> Z) (l : list Z) :
  Forall P l -> (forall x, P x -> f x = x) -> f <$> l = l.
Proof.
  intros Hl Hf. induction Hl as [|x l Hx Hl IH]; [done|].
  csimpl. by rewrite Hf, IH.
Qed.

(** Volume zero silences the buffer, in either format. *)
Theorem ApplyVolumeInPlace_zero_volume B (buf : list Z) :
  ApplyVolumeInPlace (length buf) B buf 0 = replicate (length buf) 0.
Proof.
  rewrite ApplyVolumeInPlace_fmap. apply const_fmap. intros i x _.
  change (u32 0) with 0. rewrite Z.mul_0_r.
  change (s32 (u32 0)) with 0. rewrite Z.shiftr_0_l. reflexivity.
Qed.

Lemma shiftr_mul_pow2 x k : 0 <= k -> Z.shiftr (x * 2 ^ k) k = x.
Proof.
  intros Hk. rewrite Z.shiftr_div_pow2 by done.
  apply Z.div_mul. apply Z.pow_nonzero; lia.
Qed.

(** Unity gain: 0x8000 in the 1.15 format and 0x1000 in the 4.12 format
    leave every 16-bit sample as it is. *)
Theorem ApplyVolumeInPlace_unity (buf : list Z) :
  Forall is_s16 buf ->
  ApplyVolumeInPlace_1_15 (length buf) buf 0x8000 = buf
  /\ ApplyVolumeInPlace_4_12 (length buf) buf 0x1000 = buf.
Proof.
  intros Hbuf. unfold ApplyVolumeInPlace_1_15, ApplyVolumeInPlace_4_12.
  rewrite !ApplyVolumeInPlace_map by (done || (unfold is_u16; lia)).
  split; apply (fmap_id_on is_s16); try done; intros x Hx;
    unfold apply_volume.
  - change 0x8000 with (2 ^ 15). change (16 - 1) with 15.
    rewrite shiftr_mul_pow2 by lia. by apply Clamp_id.
  - change 0x1000 with (2 ^ 12). change (16 - 4) with 12.
    rewrite shiftr_mul_pow2 by lia. by apply Clamp_id.
Qed.

Lemma ApplyVolumeInPlace_unity_witness :
  ApplyVolumeInPlace_1_15 3 [-32768; 5; 32767] 0x8000 = [-32768; 5; 32767]
  /\ ApplyVolumeInPlace_4_12 3 [-32768; 5; 32767] 0x1000
     = [-32768; 5; 32767].
Proof.
  apply (ApplyVolumeInPlace_unity [-32768; 5; 32767]).
  repeat constructor; unfold is_s16; lia.
Defined.

(** A sample scaled by a volume of at most unity lies between 0 and the
    sample. *)
Lemma apply_volume_attenuates k vol x :
  0 <= k -> 0 <= vol <= 2 ^ k -> is_s16 x ->
  (0 <= x -> 0 <= apply_volume k vol x <= x)
  /\ (x <= 0 -> x <= apply_volume k vol x <= 0).
Proof.
  intros Hk Hvol Hx. unfold apply_volume.
  rewrite Z.shiftr_div_pow2 by done.
  assert (0 < 2 ^ k) as Hpos by (apply Z.pow_pos_nonneg; lia).
  assert ((0 <= x -> 0 <= x * vol / 2 ^ k <= x)
          /\ (x <= 0 -> x <= x * vol / 2 ^ k <= 0)) as Hq.
  { split; intros Hsign; split.
    - apply Z.div_pos; [nia | done].
    - apply Z.div_le_upper_bound; [done | nia].
    - apply Z.div_le_lower_bound; [done | nia].
    - apply Z.div_le_upper_bound; [done | nia]. }
  rewrite Clamp_id; [done|].
  unfold is_s16 in *. destruct Hq as [Hq1 Hq2].
  destruct (Z.le_ge_cases 0 x) as [H0|H0];
    [specialize (Hq1 H0) | specialize (Hq2 H0)]; lia.
Qed.

(** Attenuation: with a volume of at most unity no sample gets louder or
    changes sign; it ends between 0 and its former value. *)
Theorem ApplyVolumeInPlace_attenuates (buf : list Z) (vol : Z) :
  Forall is_s16 buf ->
  (0 <= vol <= 0x8000 ->
   Forall2 (fun x out => (0 <= x -> 0 <= out <= x) /\ (x <= 0 -> x <= out <= 0))
     buf (ApplyVolumeInPlace_1_15 (length buf) buf vol))
  /\ (0 <= vol <= 0x1000 ->
      Forall2
        (fun x out => (0 <= x -> 0 <= out <= x) /\ (x <= 0 -> x <= out <= 0))
        buf (ApplyVolumeInPlace_4_12 (length buf) buf vol)).
Proof.
  intros Hbuf. unfold ApplyVolumeInPlace_1_15, ApplyVolumeInPlace_4_12.
  split; intros Hvol;
    rewrite ApplyVolumeInPlace_map by (done || (unfold is_u16; lia));
    apply Forall2_fmap_r, Forall_Forall2_diag;
    eapply Forall_impl; [exact Hbuf | | exact Hbuf | ];
    intros x Hx; simpl.
  - apply (apply_volume_attenuates 15); [lia | lia | done].
  - apply (apply_volume_attenuates 12); [lia | lia | done].
Qed.

Lemma ApplyVolumeInPlace_attenuates_witness :
  Forall2 (fun x out => (0 <= x -> 0 <= out <= x) /\ (x <= 0 -> x <= out <= 0))
    [-32768; -1; 0; 1; 32767]
    (ApplyVolumeInPlace_1_15 5 [-32768; -1; 0; 1; 32767] 0x4000).
Proof.
  apply (ApplyVolumeInPlace_attenuates [-32768; -1; 0; 1; 32767] 0x4000).
  - repeat constructor; unfold is_s16; lia.
  - lia.
Defined.

(** A 4.12 volume is the 1.15 volume eight times as large, as long as
    that one fits 16 bits. *)
Theorem ApplyVolumeInPlace_4_12_as_1_15 (buf : list Z) (vol : Z) :
  Forall is_s16 buf -> 0 <= vol < 0x2000 ->
  ApplyVolumeInPlace_4_12 (length buf) buf vol
  = ApplyVolumeInPlace_1_15 (length buf) buf (8 * vol).
Proof.
  intros Hbuf Hvol. unfold ApplyVolumeInPlace_1_15, ApplyVolumeInPlace_4_12.
  rewrite !ApplyVolumeInPlace_map by (done || (unfold is_u16; lia)).
  apply list_fmap_ext. intros i x _. unfold apply_volume. f_equal.
  change (16 - 4) with 12. change (16 - 1) with 15.
  rewrite !Z.shiftr_div_pow2 by lia.
  replace (x * (8 * vol)) with (x * vol * 2 ^ 3) by lia.
  change (2 ^ 15) with (2 ^ 12 * 2 ^ 3).
  rewrite Z.div_mul_cancel_r by lia. reflexivity.
Qed.

Lemma ApplyVolumeInPlace_4_12_as_1_15_witness :
  ApplyVolumeInPlace_4_12 3 [-32768; 77; 32767] 0x1FFF
  = ApplyVolumeInPlace_1_15 3 [-32768; 77; 32767] (8 * 0x1FFF).
Proof.
  apply (ApplyVolumeInPlace_4_12_as_1_15 [-32768; 77; 32767] 0x1FFF).
  - repeat constructor; unfold is_s16; lia.
  - lia.
Defined.

Lemma Clamp_mono x y :
  x <= y ->
  MathUtil.Clamp x (-32768) 32767 <= MathUtil.Clamp y (-32768) 32767.
Proof.
  intros Hxy. unfold MathUtil.Clamp.
  destruct (Z.ltb_spec x (-32768)), (Z.ltb_spec y (-32768)),
    (Z.ltb_spec 32767 x), (Z.ltb_spec 32767 y); lia.
Qed.

(** Volume application keeps the order of samples, for every volume: a
    larger sample never comes out smaller, overflow saturating instead of
    wrapping round. *)
Theorem ApplyVolumeInPlace_monotone (buf1 buf2 : list Z) (vol : Z) :
  Forall is_s16 buf1 -> Forall is_s16 buf2 -> is_u16 vol ->
  Forall2 Z.le buf1 buf2 ->
  Forall2 Z.le (ApplyVolumeInPlace_1_15 (length buf1) buf1 vol)
    (ApplyVolumeInPlace_1_15 (length buf2) buf2 vol)
  /\ Forall2 Z.le (ApplyVolumeInPlace_4_12 (length buf1) buf1 vol)
       (ApplyVolumeInPlace_4_12 (length buf2) buf2 vol).
Proof.
  intros H1 H2 Hvol Hle. unfold ApplyVolumeInPlace_1_15, ApplyVolumeInPlace_4_12.
  rewrite !ApplyVolumeInPlace_map by done.
  split; apply Forall2_fmap_2; eapply Forall2_impl; try exact Hle;
    intros x y Hxy; unfold apply_volume; apply Clamp_mono;
    rewrite !Z.shiftr_div_pow2 by lia;
    apply Z.div_le_mono; try lia; unfold is_u16 in Hvol; nia.
Qed.

Lemma ApplyVolumeInPlace_monotone_witness :
  Forall2 Z.le (ApplyVolumeInPlace_1_15 2 [-5; 30000] 0xFFFF)
    (ApplyVolumeInPlace_1_15 2 [7; 32767] 0xFFFF)
  /\ Forall2 Z.le (ApplyVolumeInPlace_4_12 2 [-5; 30000] 0xFFFF)
       (ApplyVolumeInPlace_4_12 2 [7; 32767] 0xFFFF).
Proof.
  apply (ApplyVolumeInPlace_monotone [-5; 30000] [7; 32767] 0xFFFF).
  - repeat constructor; unfold is_s16; lia.
  - repeat constructor; unfold is_s16; lia.
  - unfold is_u16. lia.
  - repeat constructor; lia.
Defined.

End Gain.

(** ** [AddBuffersWithVolumeRamp]: the ramp across buffers *)

Section Ramp.

Import ZeldaAudioRenderer.

Lemma contribution_0_l sample : contribution 0 sample = 0.
Proof. reflexivity. Qed.

Lemma contribution_0_r vol : contribution vol 0 = 0.
Proof. unfold contribution. by rewrite Z.mul_0_r. Qed.

Lemma ramp_volume_add vol step (n i : nat) :
  ramp_volume (ramp_volume vol step n) step i = ramp_volume vol step (n + i).
Proof. unfold ramp_volume. rewrite s32_add_l. f_equal. lia. Qed.

Lemma imap_id_on (f : nat -> Z -> Z) (l : list Z) :
  (forall i x, l !! i = Some x -> f i x = x) -> imap f l = l.
Proof.
  intros Hf. rewrite (imap_ext f (const id)) by done.
  by rewrite imap_const, list_fmap_id.
Qed.

(** The call in closed form, the zero fast path included: there the closed
    form gives back the 16-bit bus unchanged as well. *)
Lemma AddBuffersWithVolumeRamp_closed (dst src : list Z) vol step :
  is_s32 vol -> Forall is_s16 dst ->
  AddBuffersWithVolumeRamp (length dst) dst src vol step
  = (imap (fun i d =>
       s16 (d + contribution (ramp_volume vol step i) (src !!! i))) dst,
     ramp_volume vol step (length dst)).
Proof.
  intros Hvol Hdst. unfold AddBuffersWithVolumeRamp.
  destruct ((vol =? 0) && (step =? 0)) eqn:Hz.
  - apply andb_true_iff in Hz as [->%Z.eqb_eq ->%Z.eqb_eq].
    assert (forall i : nat, ramp_volume 0 0 i = 0) as H0.
    { intros i. unfold ramp_volume. by rewrite Z.mul_0_r. }
    rewrite H0. f_equal.
    symmetry. apply imap_id_on. intros i d Hd.
    rewrite H0, contribution_0_l, Z.add_0_r. apply s16_id.
    eapply Forall_lookup_1; eauto.
  - by apply ramp_loop_spec.
Qed.

(** When the guard does not hold the loop runs, whatever the bus holds. *)
Lemma AddBuffersWithVolumeRamp_loop (dst src : list Z) vol step :
  is_s32 vol -> (vol =? 0) && (step =? 0) = false ->
  AddBuffersWithVolumeRamp (length dst) dst src vol step
  = (imap (fun i d =>
       s16 (d + contribution (ramp_volume vol step i) (src !!! i))) dst,
     ramp_volume vol step (length dst)).
Proof.
  intros Hvol Hz. unfold AddBuffersWithVolumeRamp. rewrite Hz.
  by apply ramp_loop_spec.
Qed.

(** For every buffer length, and on the zero fast path as on the loop:
    sample [i] of a 16-bit bus receives the contribution of the running
    volume [vol + i * step] (wrapped to 32 bits) and source sample [i], and
    the call returns the running volume after the last sample.  The fast
    path is an optimisation only. *)
Theorem AddBuffersWithVolumeRamp_every_length (dst src : list Z)
    (vol step : Z) :
  is_s32 vol -> Forall is_s16 dst ->
  let '(dst', vol') :=
    AddBuffersWithVolumeRamp (length dst) dst src vol step in
  length dst' = length dst
  /\ (forall (i : nat) (d : Z), dst !! i = Some d ->
        dst' !! i
        = Some (s16 (d + Z.shiftr
                           (Z.shiftr (s32 (vol + Z.of_nat i * step)) 16
                            * (src !!! i)) 16)))
  /\ vol' = s32 (vol + Z.of_nat (length dst) * step).
Proof.
  intros Hvol Hdst. rewrite AddBuffersWithVolumeRamp_closed by done.
  split_and!.
  - apply length_imap.
  - intros i d Hd. rewrite list_lookup_imap, Hd. reflexivity.
  - reflexivity.
Qed.

Lemma AddBuffersWithVolumeRamp_every_length_witness :
  let '(dst', vol') :=
    AddBuffersWithVolumeRamp (length [5; -5; 0]) [5; -5; 0]
      [0x7000; 0x7000; 0x7000] 0 0 in
  length dst' = length [5; -5; 0]
  /\ (forall (i : nat) (d : Z), [5; -5; 0] !! i = Some d ->
        dst' !! i
        = Some (s16 (d + Z.shiftr
                           (Z.shiftr (s32 (0 + Z.of_nat i * 0)) 16
                            * ([0x7000; 0x7000; 0x7000] !!! i)) 16)))
  /\ vol' = s32 (0 + Z.of_nat (length [5; -5; 0]) * 0).
Proof.
  apply (AddBuffersWithVolumeRamp_every_length [5; -5; 0]
           [0x7000; 0x7000; 0x7000] 0 0).
  - unfold is_s32. lia.
  - repeat constructor; unfold is_s16; lia.
Defined.

(** The returned volume carries the ramp from one buffer to the next: one
    call on two buffers laid end to end is the call on the first followed
    by the call on the second with the volume the first returned. *)
Theorem AddBuffersWithVolumeRamp_chained (dst1 dst2 src1 src2 : list Z)
    (vol step : Z) :
  is_s32 vol -> length src1 = length dst1 ->
  AddBuffersWithVolumeRamp (length dst1 + length dst2)
    (dst1 ++ dst2) (src1 ++ src2) vol step
  = let '(dst1', vol1) :=
      AddBuffersWithVolumeRamp (length dst1) dst1 src1 vol step in
    let '(dst2', vol2) :=
      AddBuffersWithVolumeRamp (length dst2) dst2 src2 vol1 step in
    (dst1' ++ dst2', vol2).
Proof.
  intros Hvol Hlen.
  destruct ((vol =? 0) && (step =? 0)) eqn:Hz.
  - unfold AddBuffersWithVolumeRamp. rewrite Hz. simpl. by rewrite Hz.
  - rewrite <- length_app.
    rewrite (AddBuffersWithVolumeRamp_loop (dst1 ++ dst2)) by done.
    rewrite (AddBuffersWithVolumeRamp_loop dst1) by done.
    rewrite (AddBuffersWithVolumeRamp_loop dst2).
    + rewrite imap_app, length_app, ramp_volume_add. f_equal. f_equal.
      * apply imap_ext. intros i d Hd. simpl.
        rewrite lookup_total_app_l; [done|].
        apply lookup_lt_Some in Hd. lia.
      * apply imap_ext. intros i d Hd. simpl.
        rewrite ramp_volume_add, lookup_total_app_r by lia.
        do 4 f_equal. lia.
    + apply s32_range.
    + apply andb_false_iff. apply andb_false_iff in Hz as [Hv|Hs].
      * destruct (Z.eqb_spec step 0) as [->|Hstep]; [|by right]. left.
        apply Z.eqb_neq. apply Z.eqb_neq in Hv.
        unfold ramp_volume. rewrite Z.mul_0_r, Z.add_0_r.
        by rewrite s32_id.
      * by right.
Qed.

Lemma AddBuffersWithVolumeRamp_chained_witness :
  AddBuffersWithVolumeRamp (length [1; 2] + length [3])
    ([1; 2] ++ [3]) ([0x4000; 0x4000] ++ [0x4000]) 0x7FFE0000 0x10000
  = let '(dst1', vol1) :=
      AddBuffersWithVolumeRamp (length [1; 2]) [1; 2] [0x4000; 0x4000]
        0x7FFE0000 0x10000 in
    let '(dst2', vol2) :=
      AddBuffersWithVolumeRamp (length [3]) [3] [0x4000] vol1 0x10000 in
    (dst1' ++ dst2', vol2).
Proof.
  apply (AddBuffersWithVolumeRamp_chained [1; 2] [3] [0x4000; 0x4000]
           [0x4000] 0x7FFE0000 0x10000).
  - unfold is_s32. lia.
  - reflexivity.
Defined.

(** A silent source leaves a 16-bit bus as it is, but the volume still
    ramps: the call returns the volume after [N] steps. *)
Theorem AddBuffersWithVolumeRamp_silent_source (dst : list Z) (vol step : Z) :
  is_s32 vol -> Forall is_s16 dst ->
  AddBuffersWithVolumeRamp (length dst) dst (replicate (length dst) 0)
    vol step
  = (dst, s32 (vol + Z.of_nat (length dst) * step)).
Proof.
  intros Hvol Hdst. rewrite AddBuffersWithVolumeRamp_closed by done.
  f_equal. apply imap_id_on. intros i d Hd.
  assert (replicate (length dst) 0 !!! i = 0) as ->.
  { apply list_lookup_total_correct, lookup_replicate_2.
    by apply lookup_lt_Some in Hd. }
  rewrite contribution_0_r, Z.add_0_r. apply s16_id.
  eapply Forall_lookup_1; eauto.
Qed.

Lemma AddBuffersWithVolumeRamp_silent_source_witness :
  AddBuffersWithVolumeRamp (length [9; -9]) [9; -9]
    (replicate (length [9; -9]) 0) 0x7FFF0000 0x8000
  = ([9; -9], s32 (0x7FFF0000 + Z.of_nat (length [9; -9]) * 0x8000)).
Proof.
  apply (AddBuffersWithVolumeRamp_silent_source [9; -9] 0x7FFF0000 0x8000).
  - unfold is_s32. lia.
  - repeat constructor; unfold is_s16; lia.
Defined.

(** Only the upper 16 bits of the volume are heard: while the running
    volume stays in [0, 0x10000) the bus is left as it is, whatever the
    source. *)
Theorem AddBuffersWithVolumeRamp_below_one (dst src : list Z)
    (vol step : Z) :
  is_s32 vol -> Forall is_s16 dst ->
  (forall i : nat, (i < length dst)%nat ->
     0 <= vol + Z.of_nat i * step < 0x10000) ->
  AddBuffersWithVolumeRamp (length dst) dst src vol step
  = (dst, s32 (vol + Z.of_nat (length dst) * step)).
Proof.
  intros Hvol Hdst Hlow. rewrite AddBuffersWithVolumeRamp_closed by done.
  f_equal. apply imap_id_on. intros i d Hd.
  pose proof (Hlow i (lookup_lt_Some _ _ _ Hd)) as Hi.
  unfold ramp_volume, contribution.
  rewrite s32_id by (unfold is_s32; lia).
  rewrite (Z.shiftr_div_pow2 (vol + Z.of_nat i * step) 16) by lia.
  rewrite (Z.div_small (vol + Z.of_nat i * step)) by lia.
  simpl. rewrite Z.add_0_r.
  apply s16_id. eapply Forall_lookup_1; eauto.
Qed.

Lemma AddBuffersWithVolumeRamp_below_one_witness :
  AddBuffersWithVolumeRamp (length [100; -100]) [100; -100] [32767; -32768]
    0x7FFF 0x8000
  = ([100; -100], s32 (0x7FFF + Z.of_nat (length [100; -100]) * 0x8000)).
Proof.
  apply (AddBuffersWithVolumeRamp_below_one [100; -100] [32767; -32768]
           0x7FFF 0x8000).
  - unfold is_s32. lia.
  - repeat constructor; unfold is_s16; lia.
  - intros i Hi. simpl in Hi. lia.
Defined.

(** One sample's contribution is between -16384 and 16384. *)
Lemma contribution_tight vol sample :
  is_s32 vol -> is_s16 sample -> -16384 <= contribution vol sample <= 16384.
Proof.
  unfold is_s32, is_s16, contribution. intros Hv Hs.
  rewrite !Z.shiftr_div_pow2 by lia.
  assert (- 2 ^ 15 <= vol / 2 ^ 16 < 2 ^ 15) as Ha.
  { split; [apply Z.div_le_lower_bound | apply Z.div_lt_upper_bound]; lia. }
  set (a := vol / 2 ^ 16) in *.
  assert (- 2 ^ 30 <= a * sample <= 2 ^ 30) as Hp by nia.
  split; [apply Z.div_le_lower_bound | apply Z.div_le_upper_bound]; lia.
Qed.

(** Headroom: one voice mixed into a silent bus stays within -16384 and
    16384, half the 16-bit range, whatever its volume ramp; both ends are
    reached, by the lowest 32-bit volume held constant on the samples
    -32768 and 32767. *)
Theorem AddBuffersWithVolumeRamp_voice_headroom (src : list Z)
    (vol step : Z) :
  is_s32 vol -> Forall is_s16 src ->
  Forall (fun x => -16384 <= x <= 16384)
    (AddBuffersWithVolumeRamp (length src) (replicate (length src) 0) src
       vol step).1
  /\ (is_s32 (-0x80000000) /\ Forall is_s16 [-32768; 32767]
      /\ (AddBuffersWithVolumeRamp 2 [0; 0] [-32768; 32767]
            (-0x80000000) 0).1 = [16384; -16384]).
Proof.
  intros Hvol Hsrc. split.
  2: { split_and!; [unfold is_s32; lia | | reflexivity].
       repeat constructor; unfold is_s16; lia. }
  pose proof (AddBuffersWithVolumeRamp_closed
                (replicate (length src) 0) src vol step Hvol) as Hc.
  rewrite length_replicate in Hc. rewrite Hc.
  2: { apply Forall_replicate. unfold is_s16. lia. }
  simpl. apply Forall_lookup. intros i x Hx.
  rewrite list_lookup_imap in Hx.
  destruct (replicate (length src) 0 !! i) as [d|] eqn:Hd; [|done].
  apply lookup_replicate in Hd as [-> Hi]. simpl in Hx.
  injection Hx as <-.
  assert (is_s16 (src !!! i)) as Hsi.
  { destruct (lookup_lt_is_Some_2 src i Hi) as [y Hy].
    rewrite (list_lookup_total_correct _ _ _ Hy).
    eapply Forall_lookup_1; eauto. }
  pose proof (contribution_tight (ramp_volume vol step i) (src !!! i)
                (s32_range _) Hsi) as Hb.
  rewrite Z.add_0_l, s16_id; [done|]. unfold is_s16. lia.
Qed.

Lemma AddBuffersWithVolumeRamp_voice_headroom_witness :
  Forall (fun x => -16384 <= x <= 16384)
    (AddBuffersWithVolumeRamp (length [32767; -32768])
       (replicate (length [32767; -32768]) 0) [32767; -32768]
       0x7FFFFFFF 1).1
  /\ (is_s32 (-0x80000000) /\ Forall is_s16 [-32768; 32767]
      /\ (AddBuffersWithVolumeRamp 2 [0; 0] [-32768; 32767]
            (-0x80000000) 0).1 = [16384; -16384]).
Proof.
  apply (AddBuffersWithVolumeRamp_voice_headroom [32767; -32768]
           0x7FFFFFFF 1).
  - unfold is_s32. lia.
  - repeat constructor; unfold is_s16; lia.
Defined.

End Ramp.

(** ** The command buffer used in any order *)

Section CommandBufferUses.

Import ZeldaUCode.

Lemma run_ops_write val ops s :
  run_ops (OpWrite32 val :: ops) s
  = (let '(_, s1, l1) := Write32 val s in
     let '(out, s2, l2) := run_ops ops s1 in
     (out, s2, l1 ++ l2)).
Proof. reflexivity. Qed.

Lemma run_ops_read ops s :
  run_ops (OpRead32 :: ops) s
  = (let '(res, s1, l1) := Read32 s in
     let '(rest, s2, l2) := run_ops ops s1 in
     (res :: rest, s2, l1 ++ (l2 ++ []))).
Proof.
  change (run_ops (OpRead32 :: ops) s)
    with ((Read32 ≫= fun res =>
             run_ops ops ≫= fun rest => mret (res :: rest)) s).
  unfold mbind, M_bind, mret, M_ret.
  destruct (Read32 s) as [[res s1] l1].
  by destruct (run_ops ops s1) as [[rest s2] l2].
Qed.

(** Invariant: whatever the uses and however many, the buffer keeps its 64
    words and both cursors stay below 64, so no access leaves the array. *)
Theorem run_ops_cmd_buffer_ok (ops : list BufferOp) (s : ZeldaUCode.t) :
  cmd_buffer_ok s -> cmd_buffer_ok (run_ops ops s).1.2.
Proof.
  revert s. induction ops as [|[val|] ops IH]; intros s Hok; [done| |].
  - rewrite run_ops_write.
    pose proof (Write32_cmd_buffer_ok val s Hok) as H1.
    destruct (Write32 val s) as [[[] s1] l1]. simpl in H1.
    specialize (IH s1 H1).
    by destruct (run_ops ops s1) as [[out s2] l2].
  - rewrite run_ops_read.
    pose proof (Read32_cmd_buffer_ok s Hok) as H1.
    destruct (Read32 s) as [[res s1] l1]. simpl in H1.
    specialize (IH s1 H1).
    by destruct (run_ops ops s1) as [[out s2] l2].
Qed.

Lemma run_ops_cmd_buffer_ok_witness :
  cmd_buffer_ok
    (run_ops (replicate 70 (OpWrite32 9) ++ replicate 80 OpRead32)
       (initial 0)).1.2.
Proof.
  apply (run_ops_cmd_buffer_ok
           (replicate 70 (OpWrite32 9) ++ replicate 80 OpRead32) (initial 0)).
  unfold cmd_buffer_ok. simpl. split; [reflexivity | lia].
Defined.

(** What the two members never do: whatever the uses, no member other
    than the buffer and its cursors changes, the count of pending commands
    and the mail state included; reads alone leave the buffer contents and
    the write cursor alone, and writes alone leave the read cursor alone and
    log nothing. *)
Theorem run_ops_frame (ops : list BufferOp) (s : ZeldaUCode.t) :
  same_outside_buffer s (run_ops ops s).1.2
  /\ (Forall (fun op => op = OpRead32) ops ->
      m_cmd_buffer (run_ops ops s).1.2 = m_cmd_buffer s
      /\ m_write_offset (run_ops ops s).1.2 = m_write_offset s)
  /\ (Forall (fun op => op <> OpRead32) ops ->
      m_read_offset (run_ops ops s).1.2 = m_read_offset s
      /\ (run_ops ops s).2 = []).
Proof.
  revert s. induction ops as [|[val|] ops IH]; intros s.
  - unfold same_outside_buffer. simpl. split_and!; done.
  - rewrite run_ops_write, Write32_run.
    destruct (IH (set_m_write_offset
                    (u32 (m_write_offset s + 1) mod cmd_buffer_size)
                    (set_m_cmd_buffer
                       (<[Z.to_nat (m_write_offset s):=val]> (m_cmd_buffer s))
                       s))) as (Hsame & _ & Hw).
    destruct (run_ops ops _) as [[out s2] l2]. simpl in *.
    split_and!.
    + exact Hsame.
    + intros Hall. by apply Forall_cons in Hall as [? _].
    + intros Hall. apply Forall_cons in Hall as [_ Hall]. by apply Hw.
  - rewrite run_ops_read.
    assert ((Read32 s).1.2 = s
            \/ (Read32 s).1.2
               = set_m_read_offset
                   (u32 (m_read_offset s + 1) mod cmd_buffer_size) s)
      as Hs1.
    { destruct (decide (m_read_offset s = m_write_offset s)).
      - left. by rewrite Read32_empty.
      - right. by rewrite Read32_pending. }
    destruct (Read32 s) as [[res s1] l1]. simpl in Hs1.
    destruct (IH s1) as (Hsame & Hr & _).
    destruct (run_ops ops s1) as [[out s2] l2]. simpl in *.
    split_and!.
    + by destruct Hs1 as [-> | ->].
    + intros Hall. apply Forall_cons in Hall as [_ Hall].
      destruct (Hr Hall) as [-> ->]. by destruct Hs1 as [-> | ->].
    + intros Hall. by apply Forall_cons in Hall as [? _].
Qed.

Lemma holds_empty_cursors s :
  holds s [] -> m_read_offset s = m_write_offset s.
Proof.
  intros ((_ & Hr & _) & _ & Hw & _). simpl in Hw.
  rewrite Z.add_0_r, Z.mod_small in Hw by done. done.
Qed.

(** Refinement: as long as no write takes the number of waiting words
    beyond 63, writes and reads in any order behave as on a first-in
    first-out queue: every read returns the oldest word not yet read, or 0
    when none waits. *)
Theorem run_ops_fifo (ops : list BufferOp) (s : ZeldaUCode.t)
    (q : list Z) :
  holds s q -> within_capacity ops (length q) ->
  (run_ops ops s).1.1 = (queue_ops ops q).1
  /\ holds (run_ops ops s).1.2 (queue_ops ops q).2.
Proof.
  revert s q. induction ops as [|[val|] ops IH]; intros s q Hq Hcap.
  - done.
  - destruct Hcap as [Hroom Hcap]. rewrite run_ops_write. simpl queue_ops.
    destruct (Write32_holds s q val Hq Hroom) as (H1 & _ & _).
    destruct (Write32 val s) as [[[] s1] l1]. simpl in H1.
    destruct (IH s1 (q ++ [val]) H1) as [Hout Hfin].
    { rewrite length_app. simpl. by rewrite Nat.add_1_r. }
    by destruct (run_ops ops s1) as [[out s2] l2].
  - rewrite run_ops_read. simpl in Hcap. destruct q as [|x q]; simpl queue_ops.
    + rewrite (Read32_empty s) by (by apply holds_empty_cursors).
      destruct (IH s [] Hq Hcap) as [Hout Hfin].
      destruct (run_ops ops s) as [[out s2] l2].
      destruct (queue_ops ops []) as [rest q']. simpl in *. by subst.
    + destruct (Read32_holds s x q Hq) as (Hx & H1 & _).
      destruct (Read32 s) as [[res s1] l1]. simpl in Hx, H1.
      destruct (IH s1 q H1 Hcap) as [Hout Hfin].
      destruct (run_ops ops s1) as [[out s2] l2].
      destruct (queue_ops ops q) as [rest q']. simpl in *. by subst.
Qed.

Lemma run_ops_fifo_witness :
  (run_ops [OpRead32; OpWrite32 7; OpWrite32 8; OpRead32; OpWrite32 9;
            OpRead32; OpRead32; OpRead32] (initial 0)).1.1
  = (queue_ops [OpRead32; OpWrite32 7; OpWrite32 8; OpRead32; OpWrite32 9;
                OpRead32; OpRead32; OpRead32] []).1
  /\ holds
       (run_ops [OpRead32; OpWrite32 7; OpWrite32 8; OpRead32; OpWrite32 9;
                 OpRead32; OpRead32; OpRead32] (initial 0)).1.2
       (queue_ops [OpRead32; OpWrite32 7; OpWrite32 8; OpRead32; OpWrite32 9;
                   OpRead32; OpRead32; OpRead32] []).2.
Proof.
  apply (run_ops_fifo
           [OpRead32; OpWrite32 7; OpWrite32 8; OpRead32; OpWrite32 9;
            OpRead32; OpRead32; OpRead32] (initial 0) []).
  - apply holds_nil; [|reflexivity].
    unfold cmd_buffer_ok. simpl. split; [reflexivity | lia].
  - simpl. lia.
Defined.

(** Overflow: a write into a buffer whose write cursor is one slot behind
    the read cursor, 63 words waiting, brings the cursors together; the
    next [Read32] takes the queue for empty, logs the underrun and returns
    0, although 64 words were written and none read. *)
Theorem Write32_overflow_reads_empty (s : ZeldaUCode.t) (val : Z) :
  cmd_buffer_ok s ->
  m_write_offset s = (m_read_offset s + 63) mod 64 ->
  let s' := (Write32 val s).1.2 in
  m_read_offset s <> m_write_offset s
  /\ m_read_offset s' = m_write_offset s'
  /\ Read32 s' = (0, s', [underrun_entry]).
Proof.
  intros (Hlen & Hr & Hw) Hfull. rewrite Write32_run. simpl.
  assert (u32 (m_write_offset s + 1) mod cmd_buffer_size = m_read_offset s)
    as Hnew.
  { rewrite next_cursor by done. rewrite Hfull, Zplus_mod_idemp_l.
    replace (m_read_offset s + 63 + 1) with (m_read_offset s + 1 * 64) by lia.
    rewrite Z.mod_add by lia. by apply Z.mod_small. }
  split_and!.
  - rewrite Hfull. Z.div_mod_to_equations. lia.
  - simpl. by rewrite Hnew.
  - apply Read32_empty. simpl. by rewrite Hnew.
Qed.

Lemma Write32_overflow_reads_empty_witness :
  let s := (Write32_each (replicate 63 5) (initial 0)).1.2 in
  let s' := (Write32 6 s).1.2 in
  m_read_offset s <> m_write_offset s
  /\ m_read_offset s' = m_write_offset s'
  /\ Read32 s' = (0, s', [underrun_entry]).
Proof.
  apply (Write32_overflow_reads_empty
           (Write32_each (replicate 63 5) (initial 0)).1.2 6).
  - unfold cmd_buffer_ok. vm_compute. split; [reflexivity|].
    split; split; discriminate || reflexivity.
  - vm_compute. reflexivity.
Defined.

Lemma slot_ne (w a b : Z) :
  0 <= a < b -> b - a < 64 ->
  Z.to_nat ((w + a) mod 64) <> Z.to_nat ((w + b) mod 64).
Proof.
  intros Hab Hd Heq. apply Z2Nat.inj in Heq.
  - revert Heq. Z.div_mod_to_equations. lia.
  - apply Z.mod_pos_bound. lia.
  - apply Z.mod_pos_bound. lia.
Qed.

(** Up to 64 words written in a row land in consecutive slots from the
    write cursor on, round the end of the array; the other slots and the
    read cursor are left alone, and 64 words bring the write cursor back to
    where it was, every slot overwritten. *)
Theorem Write32_each_slots (vals : list Z) (s : ZeldaUCode.t) :
  cmd_buffer_ok s -> (length vals <= 64)%nat ->
  let s' := (Write32_each vals s).1.2 in
  m_write_offset s' = (m_write_offset s + Z.of_nat (length vals)) mod 64
  /\ m_read_offset s' = m_read_offset s
  /\ (forall (i : nat) (x : Z), vals !! i = Some x ->
        m_cmd_buffer s' !! Z.to_nat ((m_write_offset s + Z.of_nat i) mod 64)
        = Some x)
  /\ (forall j : nat,
        (forall i : nat, (i < length vals)%nat ->
           Z.to_nat ((m_write_offset s + Z.of_nat i) mod 64) <> j) ->
        m_cmd_buffer s' !! j = m_cmd_buffer s !! j).
Proof.
  revert s. induction vals as [|val vals IH]; intros s Hok Hlen.
  - simpl. split_and!; try done.
    destruct Hok as (_ & _ & Hw). rewrite Z.add_0_r. by rewrite Z.mod_small.
  - simpl in Hlen.
    change (Write32_each (val :: vals) s)
      with ((Write32 val ≫= fun _ => Write32_each vals) s).
    unfold mbind, M_bind.
    pose proof (Write32_cmd_buffer_ok val s Hok) as Hok1.
    pose proof (Write32_run val s) as Hrun.
    destruct (Write32 val s) as [[[] s1] l1]. simpl in Hok1.
    injection Hrun as Hs1 _.
    specialize (IH s1 Hok1 ltac:(lia)).
    destruct (Write32_each vals s1) as [[[] s2] l2]. simpl in IH |- *.
    destruct IH as (Hw2 & Hr2 & Hslots & Hrest).
    destruct Hok as (Hbuf & Hr & Hw).
    assert (m_write_offset s1 = (m_write_offset s + 1) mod 64) as Hw1.
    { subst s1. simpl. by apply next_cursor. }
    assert (m_cmd_buffer s1
            = <[Z.to_nat (m_write_offset s) := val]> (m_cmd_buffer s))
      as Hb1 by (by subst s1).
    assert (m_read_offset s1 = m_read_offset s) as Hr1 by (by subst s1).
    assert (forall i : nat,
              (m_write_offset s1 + Z.of_nat i) mod 64
              = (m_write_offset s + Z.of_nat (S i)) mod 64) as Hshift.
    { intros i. rewrite Hw1, Zplus_mod_idemp_l. f_equal. lia. }
    split_and!.
    + rewrite Hw2, Hw1, Zplus_mod_idemp_l. f_equal. lia.
    + by rewrite Hr2.
    + intros [|i] x Hx.
      * simpl in Hx. injection Hx as <-.
        rewrite Z.add_0_r, Z.mod_small by done.
        rewrite Hrest.
        -- rewrite Hb1. apply list_lookup_insert_eq. lia.
        -- intros i Hi. rewrite Hshift.
           rewrite <- (Z.mod_small (m_write_offset s) 64) at 2 by done.
           rewrite <- (Z.add_0_r (m_write_offset s)) at 2.
           intros Heq. symmetry in Heq. revert Heq. apply slot_ne; lia.
      * rewrite <- Hshift. by apply Hslots.
    + intros j Hj. rewrite Hrest.
      * rewrite Hb1. apply list_lookup_insert_ne.
        specialize (Hj 0%nat ltac:(simpl; lia)).
        by rewrite Z.add_0_r, Z.mod_small in Hj.
      * intros i Hi. rewrite Hshift. apply Hj. simpl. lia.
Qed.

Lemma Write32_each_slots_witness :
  let vals := Z.of_nat <$> seq 100 64 in
  let s := (Write32_each [1; 2; 3] (initial 0)).1.2 in
  let s' := (Write32_each vals s).1.2 in
  m_write_offset s' = (m_write_offset s + Z.of_nat (length vals)) mod 64
  /\ m_read_offset s' = m_read_offset s
  /\ (forall (i : nat) (x : Z), vals !! i = Some x ->
        m_cmd_buffer s' !! Z.to_nat ((m_write_offset s + Z.of_nat i) mod 64)
        = Some x)
  /\ (forall j : nat,
        (forall i : nat, (i < length vals)%nat ->
           Z.to_nat ((m_write_offset s + Z.of_nat i) mod 64) <> j) ->
        m_cmd_buffer s' !! j = m_cmd_buffer s !! j).
Proof.
  apply (Write32_each_slots (Z.of_nat <$> seq 100 64)
           (Write32_each [1; 2; 3] (initial 0)).1.2).
  - unfold cmd_buffer_ok. vm_compute. split; [reflexivity|].
    split; split; discriminate || reflexivity.
  - vm_compute. lia.
Defined.

End CommandBufferUses.

(** ** [PulseAudio]: connecting, and the latency over time *)

Section Connecting.

Import PulseAudio.

Lemma verdict_range states v : verdict states = Some v -> v = 1 \/ v = 2.
Proof.
  revert v. induction states as [|state states IH]; intros v Hv; [done|].
  simpl in Hv. destruct (verdict states) as [v'|].
  - injection Hv as <-. by apply IH.
  - destruct state; simpl in Hv; try done; injection Hv as <-; auto.
Qed.

Lemma verdict_app states1 states2 :
  verdict (states1 ++ states2)
  = match verdict states2 with
    | Some v => Some v
    | None => verdict states1
    end.
Proof.
  induction states1 as [|state states1 IH]; simpl.
  - by destruct (verdict states2).
  - rewrite IH. by destruct (verdict states2).
Qed.

(** The callbacks of a run of notifications only ever assign
    [m_pa_connected], and what they leave there is the verdict of the run. *)
Lemma notify_verdict states p :
  notify states p
  = set_m_pa_connected (default (m_pa_connected p) (verdict states)) p.
Proof.
  revert p. induction states as [|state states IH]; intros p.
  - by destruct p.
  - change (notify (state :: states) p)
      with (notify states (StateCallback state p)).
    rewrite IH. simpl. destruct (verdict states) as [v|]; simpl.
    + by destruct state, p.
    + by destruct state, p.
Qed.

(** The last [READY], [FAILED] or [TERMINATED] notification decides alone:
    what came before it, the states in between and the former value of
    [m_pa_connected] do not matter, so a context that failed and then
    becomes ready counts as connected; notifications of other states only
    leave the object as it is. *)
Theorem StateCallback_last_notification_decides
    (before after : list pa_context_state_t) (state : pa_context_state_t)
    (v : Z) (p : PulseAudio.t) :
  verdict_of state = Some v ->
  Forall (fun st => st <> PA_CONTEXT_READY /\ st <> PA_CONTEXT_FAILED
                    /\ st <> PA_CONTEXT_TERMINATED) after ->
  notify (before ++ state :: after) p = set_m_pa_connected v p
  /\ notify after p = p.
Proof.
  intros Hv Hafter.
  assert (verdict after = None) as Hnone.
  { induction Hafter as [|st after (? & ? & ?) _ IH]; [done|].
    simpl. rewrite IH. by destruct st. }
  split.
  - rewrite notify_verdict, verdict_app. simpl. by rewrite Hnone, Hv.
  - rewrite notify_verdict, Hnone. by destruct p.
Qed.

Lemma StateCallback_last_notification_decides_witness :
  notify ([PA_CONTEXT_CONNECTING; PA_CONTEXT_FAILED]
          ++ PA_CONTEXT_READY :: [PA_CONTEXT_SETTING_NAME]) connected
  = set_m_pa_connected 1 connected
  /\ notify [PA_CONTEXT_SETTING_NAME] connected = connected.
Proof.
  apply (StateCallback_last_notification_decides
           [PA_CONTEXT_CONNECTING; PA_CONTEXT_FAILED]
           [PA_CONTEXT_SETTING_NAME] PA_CONTEXT_READY 1 connected).
  - reflexivity.
  - repeat constructor; discriminate.
Defined.

Lemma wait_connected_done script p :
  waiting p = false -> wait_connected script p = Some p.
Proof. intros Hw. destruct script; simpl; by rewrite Hw. Qed.

Lemma iterate_members it p :
  m_pa_error (iterate it p) = returned it
  /\ m_pa_connected (iterate it p)
     = default (m_pa_connected p) (verdict (notified it))
  /\ m_pa_ba (iterate it p) = m_pa_ba p.
Proof. unfold iterate. rewrite notify_verdict. by destruct p. Qed.

(** When the wait is over the loop condition is false, [m_pa_connected] is
    still one of 0, 1, 2 and the buffer attributes are untouched. *)
Lemma wait_connected_post script p p' :
  wait_connected script p = Some p' ->
  (m_pa_connected p = 0 \/ m_pa_connected p = 1 \/ m_pa_connected p = 2) ->
  waiting p' = false
  /\ (m_pa_connected p' = 0 \/ m_pa_connected p' = 1 \/ m_pa_connected p' = 2)
  /\ m_pa_ba p' = m_pa_ba p.
Proof.
  revert p. induction script as [|it script IH]; intros p Hwait Hc;
    simpl in Hwait; destruct (waiting p) eqn:Hw; try done.
  - injection Hwait as <-. done.
  - destruct (iterate_members it p) as (_ & Hci & Hba).
    destruct (IH _ Hwait) as (H1 & H2 & H3).
    + rewrite Hci. destruct (verdict (notified it)) as [v|] eqn:Hv; [|done].
      simpl. destruct (verdict_range _ _ Hv); auto.
    + split_and!; try done. by rewrite H3.
  - injection Hwait as <-. done.
Qed.

(** Whenever [PulseInit] returns, it returns true exactly when it leaves
    the object connected ([m_pa_connected] 1) with a non-negative
    [m_pa_error]; then the stream has been requested with a latency of
    [BUFFER_SIZE] and no limit on the other attributes.  When it returns
    false the failure is logged with the error at hand, and either the
    context failed or an answer of the library was negative. *)
Theorem PulseInit_result (connect_result : Z) (script : list Iteration)
    (playback_result : Z) (p p' : PulseAudio.t) (ok : bool)
    (log : list InitLog) :
  PulseInit connect_result script playback_result p = Some (ok, p', log) ->
  (ok = true <-> m_pa_connected p' = 1 /\ 0 <= m_pa_error p')
  /\ (ok = true ->
      m_pa_ba p' = PulseInit_m_pa_ba
      /\ tlength (m_pa_ba p') = 2048
      /\ m_pa_error p' = playback_result
      /\ log = [SuccessfullyInitialized])
  /\ (ok = false ->
      log = [FailedToInitialize (m_pa_error p')]
      /\ (m_pa_connected p' = 2 \/ m_pa_error p' < 0)).
Proof.
  unfold PulseInit. intros Hrun.
  destruct (wait_connected script _) as [p1|] eqn:Hwait; [|done].
  apply wait_connected_post in Hwait as (Hw & Hc & _); [|by left].
  unfold waiting in Hw.
  destruct ((m_pa_connected p1 =? 2) || (m_pa_error p1 <? 0)) eqn:Hfail.
  - injection Hrun as <- <- <-.
    assert (m_pa_connected p1 = 2 \/ m_pa_error p1 < 0) as Hwhy.
    { apply orb_true_iff in Hfail as [?%Z.eqb_eq | ?%Z.ltb_lt]; auto. }
    split_and!.
    + split; [done | intros [? ?]; lia].
    + done.
    + done.
  - apply orb_false_iff in Hfail as [?%Z.eqb_neq ?%Z.ltb_ge].
    apply andb_false_iff in Hw as [?%Z.eqb_neq | ?%Z.leb_gt]; [|lia].
    assert (m_pa_connected p1 = 1) as Hone by lia.
    simpl in Hrun. destruct (playback_result <? 0) eqn:Hpr;
      injection Hrun as <- <- <-; simpl.
    + apply Z.ltb_lt in Hpr. split_and!.
      * split; [done | intros [? ?]; lia].
      * done.
      * intros _. split; [done | by right].
    + apply Z.ltb_ge in Hpr. split_and!; done.
Qed.

Lemma PulseInit_result_witness :
  (true = true <->
   m_pa_connected (Build 0 1 PulseInit_m_pa_ba) = 1
   /\ 0 <= m_pa_error (Build 0 1 PulseInit_m_pa_ba))
  /\ (true = true ->
      m_pa_ba (Build 0 1 PulseInit_m_pa_ba) = PulseInit_m_pa_ba
      /\ tlength (m_pa_ba (Build 0 1 PulseInit_m_pa_ba)) = 2048
      /\ m_pa_error (Build 0 1 PulseInit_m_pa_ba) = 0
      /\ [SuccessfullyInitialized] = [SuccessfullyInitialized])
  /\ (true = false ->
      [SuccessfullyInitialized]
      = [FailedToInitialize (m_pa_error (Build 0 1 PulseInit_m_pa_ba))]
      /\ (m_pa_connected (Build 0 1 PulseInit_m_pa_ba) = 2
          \/ m_pa_error (Build 0 1 PulseInit_m_pa_ba) < 0)).
Proof.
  apply (PulseInit_result 0
           [BuildIteration [PA_CONTEXT_CONNECTING] 0;
            BuildIteration [PA_CONTEXT_AUTHORIZING; PA_CONTEXT_READY] 3]
           0 (Build (-7) 2 (BuildAttr 1 2 3 4 5))).
  reflexivity.
Defined.

Lemma set_m_pa_error_twice e1 e2 p :
  set_m_pa_error e2 (set_m_pa_error e1 p) = set_m_pa_error e2 p.
Proof. reflexivity. Qed.

(** Quiet iterations keep the loop waiting and change [m_pa_error] only. *)
Lemma wait_connected_quiet its script p :
  Forall quiet its -> waiting p = true ->
  exists e, 0 <= e
    /\ wait_connected (its ++ script) p
       = wait_connected script (set_m_pa_error e p).
Proof.
  intros Hq. revert p. induction Hq as [|it its [Hret Hv] _ IH]; intros p Hw.
  - exists (m_pa_error p). split.
    + unfold waiting in Hw. apply andb_true_iff in Hw as [_ ?%Z.leb_le]. done.
    + by destruct p.
  - simpl. rewrite Hw.
    assert (iterate it p = set_m_pa_error (returned it) p) as Hit.
    { unfold iterate. rewrite notify_verdict, Hv. by destruct p. }
    rewrite Hit. destruct (IH (set_m_pa_error (returned it) p)) as (e & He & ->).
    + unfold waiting in *. simpl.
      apply andb_true_iff in Hw as [-> _]. simpl. by apply Z.leb_le.
    + exists e. by rewrite set_m_pa_error_twice.
Qed.

(** [PulseInit] does return, and what: after any number of quiet
    iterations, an iteration that ends on [READY] without error lets it set
    up the stream and return true if the playback connection is accepted;
    one that ends on [FAILED] or [TERMINATED] makes it return false and
    leaves the buffer attributes alone.  The answers after the decisive one
    are not asked for. *)
Theorem PulseInit_returns (connect_result : Z) (its rest : list Iteration)
    (it : Iteration) (playback_result : Z) (p : PulseAudio.t) :
  0 <= connect_result -> Forall quiet its -> 0 <= returned it ->
  (verdict (notified it) = Some 1 -> 0 <= playback_result ->
   PulseInit connect_result (its ++ it :: rest) playback_result p
   = Some (true, Build playback_result 1 PulseInit_m_pa_ba,
           [SuccessfullyInitialized]))
  /\ (verdict (notified it) = Some 2 ->
      PulseInit connect_result (its ++ it :: rest) playback_result p
      = Some (false, Build (returned it) 2 (m_pa_ba p),
              [FailedToInitialize (returned it)])).
Proof.
  intros Hc Hq Hret. unfold PulseInit.
  destruct (wait_connected_quiet its (it :: rest)
              (set_m_pa_error connect_result
                 (set_m_pa_connected 0 (set_m_pa_error 0 p))) Hq)
    as (e & He & ->).
  { unfold waiting. simpl. by apply Z.leb_le. }
  simpl wait_connected.
  assert (waiting (set_m_pa_error e (set_m_pa_error connect_result
            (set_m_pa_connected 0 (set_m_pa_error 0 p)))) = true) as ->.
  { unfold waiting. simpl. by apply Z.leb_le. }
  split; intros Hv.
  - intros Hpr. rewrite wait_connected_done.
    + unfold iterate. rewrite notify_verdict, Hv. simpl.
      assert ((returned it <? 0) = false) as -> by (apply Z.ltb_ge; lia).
      assert ((playback_result <? 0) = false) as -> by (apply Z.ltb_ge; lia).
      reflexivity.
    + unfold iterate. rewrite notify_verdict, Hv. reflexivity.
  - rewrite wait_connected_done.
    + unfold iterate. rewrite notify_verdict, Hv. reflexivity.
    + unfold iterate. rewrite notify_verdict, Hv. reflexivity.
Qed.

Lemma PulseInit_returns_witness :
  PulseInit 0
    ([BuildIteration [PA_CONTEXT_CONNECTING] 0;
      BuildIteration [PA_CONTEXT_AUTHORIZING; PA_CONTEXT_SETTING_NAME] 2]
     ++ BuildIteration [PA_CONTEXT_FAILED; PA_CONTEXT_READY] 1
        :: [BuildIteration [PA_CONTEXT_TERMINATED] (-1)])
    0 (Build (-7) 2 (BuildAttr 1 2 3 4 5))
  = Some (true, Build 0 1 PulseInit_m_pa_ba, [SuccessfullyInitialized]).
Proof.
  apply (PulseInit_returns 0
           [BuildIteration [PA_CONTEXT_CONNECTING] 0;
            BuildIteration [PA_CONTEXT_AUTHORIZING; PA_CONTEXT_SETTING_NAME] 2]
           [BuildIteration [PA_CONTEXT_TERMINATED] (-1)]
           (BuildIteration [PA_CONTEXT_FAILED; PA_CONTEXT_READY] 1)
           0 (Build (-7) 2 (BuildAttr 1 2 3 4 5))).
  - lia.
  - repeat constructor; simpl; lia.
  - simpl. lia.
  - reflexivity.
  - lia.
Defined.

(** A negative answer ends the wait at once: [PulseInit] returns false
    when [pa_context_connect] fails, without a single iteration of the main
    loop, and when an iteration returns a negative value, even one during
    which the context became ready. *)
Theorem PulseInit_negative_answer (connect_result : Z)
    (its rest : list Iteration) (it : Iteration) (playback_result : Z)
    (p : PulseAudio.t) :
  (connect_result < 0 ->
   PulseInit connect_result rest playback_result p
   = Some (false, Build connect_result 0 (m_pa_ba p),
           [FailedToInitialize connect_result]))
  /\ (0 <= connect_result -> Forall quiet its -> returned it < 0 ->
      exists c,
        PulseInit connect_result (its ++ it :: rest) playback_result p
        = Some (false, Build (returned it) c (m_pa_ba p),
                [FailedToInitialize (returned it)])).
Proof.
  split.
  - intros Hc. unfold PulseInit. rewrite wait_connected_done.
    + simpl. assert ((connect_result <? 0) = true) as ->
        by (apply Z.ltb_lt; lia).
      reflexivity.
    + unfold waiting. simpl. apply Z.leb_gt. lia.
  - intros Hc Hq Hret. unfold PulseInit.
    destruct (wait_connected_quiet its (it :: rest)
                (set_m_pa_error connect_result
                   (set_m_pa_connected 0 (set_m_pa_error 0 p))) Hq)
      as (e & He & ->).
    { unfold waiting. simpl. by apply Z.leb_le. }
    simpl wait_connected.
    assert (waiting (set_m_pa_error e (set_m_pa_error connect_result
              (set_m_pa_connected 0 (set_m_pa_error 0 p)))) = true) as ->.
    { unfold waiting. simpl. by apply Z.leb_le. }
    match goal with |- context [iterate it ?p0] =>
      destruct (iterate_members it p0) as (Herr & _ & Hba);
      set (p1 := iterate it p0) in *
    end.
    change (m_pa_ba p1 = m_pa_ba p) in Hba. clearbody p1.
    rewrite wait_connected_done.
    + exists (m_pa_connected p1).
      assert ((m_pa_error p1 <? 0) = true) as ->
        by (apply Z.ltb_lt; lia).
      rewrite orb_true_r, <- Herr, <- Hba. by destruct p1.
    + unfold waiting.
      assert ((0 <=? m_pa_error p1) = false) as ->
        by (apply Z.leb_gt; lia).
      by rewrite andb_false_r.
Qed.

Lemma PulseInit_negative_answer_witness :
  exists c,
    PulseInit 0
      ([BuildIteration [PA_CONTEXT_CONNECTING] 0]
       ++ BuildIteration [PA_CONTEXT_READY] (-3) :: [])
      0 connected
    = Some (false, Build (-3) c (m_pa_ba connected),
            [FailedToInitialize (-3)]).
Proof.
  apply (PulseInit_negative_answer 0 [BuildIteration [PA_CONTEXT_CONNECTING] 0]
           [] (BuildIteration [PA_CONTEXT_READY] (-3)) 0 connected).
  - lia.
  - repeat constructor; simpl; lia.
  - simpl. lia.
Defined.

(** From the attributes [PulseInit] requests, [n] underflows leave a
    latency of 2048 times [(n + 1) mod 2097152]: always a multiple of
    [BUFFER_SIZE], never 4 GiB or more, back to 0 every 2097152 underflows;
    the four other attributes stay at their maximum and the other members
    are not touched. *)
Theorem underflows_after_PulseInit (n : nat) (p : PulseAudio.t) :
  m_pa_ba p = PulseInit_m_pa_ba ->
  let p' := underflows n p in
  tlength (m_pa_ba p') = 2048 * ((Z.of_nat n + 1) mod 2097152)
  /\ 0 <= tlength (m_pa_ba p') < 2 ^ 32
  /\ maxlength (m_pa_ba p') = 0xFFFFFFFF
  /\ prebuf (m_pa_ba p') = 0xFFFFFFFF
  /\ minreq (m_pa_ba p') = 0xFFFFFFFF
  /\ fragsize (m_pa_ba p') = 0xFFFFFFFF
  /\ m_pa_error p' = m_pa_error p
  /\ m_pa_connected p' = m_pa_connected p.
Proof.
  intros Hba. simpl.
  rewrite underflows_tlength by (rewrite Hba; vm_compute; split; congruence).
  rewrite Hba. simpl.
  assert (u32 (u32 BUFFER_SIZE + Z.of_nat n * BUFFER_SIZE)
          = 2048 * ((Z.of_nat n + 1) mod 2097152)) as ->.
  { change (u32 BUFFER_SIZE) with 2048. rewrite BUFFER_SIZE_bytes.
    unfold u32. change (2 ^ 32) with (2048 * 2097152).
    rewrite <- Z.mul_mod_distr_l by lia. f_equal. lia. }
  pose proof (Z.mod_pos_bound (Z.of_nat n + 1) 2097152).
  split_and!; try done; lia.
Qed.

Lemma underflows_after_PulseInit_witness :
  let p' := underflows 3 connected in
  tlength (m_pa_ba p') = 2048 * ((Z.of_nat 3 + 1) mod 2097152)
  /\ 0 <= tlength (m_pa_ba p') < 2 ^ 32
  /\ maxlength (m_pa_ba p') = 0xFFFFFFFF
  /\ prebuf (m_pa_ba p') = 0xFFFFFFFF
  /\ minreq (m_pa_ba p') = 0xFFFFFFFF
  /\ fragsize (m_pa_ba p') = 0xFFFFFFFF
  /\ m_pa_error p' = m_pa_error connected
  /\ m_pa_connected p' = m_pa_connected connected.
Proof. apply (underflows_after_PulseInit 3 connected). reflexivity. Defined.

End Connecting.
